(* ===== verification/_CoqProject ===== *)
-Q . S2P
Prelude.v
Regex.v
Device.v
Router.v
Vue.v
Promise.v
Bootstrap.v
Modules.v
