(* ===== verification/Prelude.v ===== *)
(** * A verification development of mypoems (src/main.js and src/desktop/)

    ** The program

    mypoems is a Vue 3 single-page app of three source files.
    - [src/main.js] is the entry point.  Evaluating it first evaluates its
      static import [src/desktop/router/index.js], which creates the router.
      It then classifies the device with a regular expression on
      [navigator.userAgent] (lines 4-7).  It starts a dynamic [import()] of
      the mobile or the desktop root view (lines 10-12).  Its [.then]
      handler (lines 14-19) calls [createApp] on the module's default
      export, installs the router with [app.use], and mounts the app on
      ['#app'].
    - [src/desktop/router/index.js] holds the routing table ([/], [/about],
      [/books]) and the router built with
      [createWebHistory(import.meta.env.BASE_URL)].
    - [src/desktop/components/js/main.js] is an older, eager entry point:
      [createApp(App).use(router).mount('#app')].
    The parts interact through the shared router object, which src/main.js
    installs, and through the promise of the dynamic import, whose
    reaction job runs the mount.

    ** The files
    - [Prelude] (this file): JavaScript strings as lists of UTF-16 code
      units ([list N]); ASCII case mapping; the [mypoems] hint databases;
      [occurs_at] (a word occurring at an index up to a normalisation) and
      its lemmas; lemmas on lists updated by index; the closure [star] of a
      step relation.
    - [Regex] (Module [Regex]): the ECMA-262 regular-expression semantics
      that [RegExp.prototype.test] runs on the literal of src/main.js
      line 5.  It has Canonicalize with the [i] flag, the matchers of
      Alternative and Disjunction, the [lastIndex] loop of
      RegExpBuiltinExec, and [test].  The Unicode case table is a class
      [CaseMapping], assumed correct on ASCII only.
    - [Device] (Module [Device]): [isMobile] of src/main.js lines 4-7, its
      reference specification [mobile_spec] (a token occurs up to ASCII
      case), and the scenarios of the specification.
    - [Router] (Module [Router]): the table [routes], the options [router],
      and vue-router 4's handling of them.  That handling is
      [normalize_base], [strip_base], the compiled static-path matcher
      [path_matches] and [resolve].
    - [Vue] (Module [Vue]): the class [VueRuntime], which states what
      [createApp], [use] and [mount] promise the entry point.  The model
      [VueModel] implements it after Vue 3's [apiCreateApp] and
      runtime-dom's [mount] (which empties the container, then runs core
      [mount]), with vue-router's [install] and its initial navigation.
    - [Modules] (Module [Modules]): the import declarations of the three
      files and how the bundler resolves their specifiers.
    - [Promise] (Module [Promise]): the promise store, [then], fulfil and
      reject with their reaction jobs, and the host rejection tracker of
      ECMA-262 27.2 and HTML.
    - [Bootstrap] (Module [Bootstrap]): [main_js], the synchronous
      evaluation of src/main.js; [main_then], the handler.  [step] is the
      relation of
      what happens afterwards: the loader fulfils or rejects the import, a
      microtask runs a job, the router's initial navigation completes
      ([navigate]), or the checkpoint reports unhandled rejections.  The
      bootstrap is proved against [VueRuntime], then instantiated on
      [VueModel].  The proofs assume, as a section [Hypothesis], that the
      router is idle when src/main.js starts (true of [initial_vue]: only
      [install] starts a navigation).

    ** The theorems
    - Bootstrap: the reachable worlds are exactly listed
      ([reachable_exactly]): pending, loaded, mounted, final (the navigation
      the handler started completed), or failed, rejected, reported.
      Nothing is mounted before the import resolves.  The trace is a prefix
      of the success or the failure pipeline.  At most one app is created.
      Every run terminates, and it ends in the final world of success or
      with the rejection reported.  The app is mounted while the route is
      still START_LOCATION; the navigation completes afterwards
      ([bootstrap_initial_route]).  With [#app] present, the selected root view is mounted
      with the router.  A failed load reports exactly one unhandled
      rejection, that of the promise [.then] returned.  Under any
      [BASE_URL], every run on the page at base ++ a route's path that ends
      mounted shows that route ([bootstrap_opens_route]).
    - Device: [isMobile] is equivalent to [mobile_spec], whatever the
      non-ASCII case table.  It holds for a token in any case and for any
      superstring.  [test] leaves the RegExp object unchanged (the literal has no [g]
      flag; the Example [global_flag_alternates] shows what [g] would do).
    - Router: no location matches two routes, under vue-router's matching
      (case-insensitive, optional trailing '/'; the root path compiles to
      [^//?$] and matches '/' and '//').  Under any [BASE_URL], the page at
      the normalized base followed by a route's path resolves to that
      route.
    - Promise: a settled promise never changes ([settled_stable]).  Every
      operation keeps the store well formed ([store_wf_preserved]): a
      settled promise has no reaction left, so each reaction is triggered
      once; reactions and queued jobs name existing promises.
    - Vue model: a second [use] of the router only warns ([vm_use_twice]).
      A second [mount] of a mounted app warns "already mounted" but, since
      runtime-dom empties the container before core [mount] checks
      [isMounted], it leaves the host empty while the app stays mounted
      ([vm_mount_twice]).  Every state reached from a page by any sequence
      of [createApp], [use], [mount] and navigations satisfies [wf_state]
      ([vue_ops_wf]).
    - Modules: a relative import "./x" of the eager entry point names the
      same file as "@/y" of src/main.js exactly when y is
      "desktop/components/js/x".  So none of its relative imports reaches
      the module src/main.js loads under the same name
      ([eager_relative_import_misses]).  That is the eager entry point's
      defect.  Path normalization is [path.posix.normalize] only on the
      relative, non-empty paths resolution builds; the theorems use it on
      paths of plain segments, which it leaves as they are.
    - Regex: the loop terminates.  Without [g]/[y], exec is the leftmost
      search and leaves the object unchanged.  A Disjunction of literals
      takes the first alternative that occurs.  Canonicalize agrees with
      ASCII case-folding against ASCII characters.  A reported match
      [(i, e)] has [i <= e <= length S].  With [g]/[y] the [lastIndex]
      left behind is at most [length S] ([regexp_builtin_exec_bounds]).

    ** Fuel and bounds

    The only fuel is the [lastIndex] loop of RegExpBuiltinExec, which runs
    with [length + 2 - lastIndex] rounds.  [exec_loop_total] proves that
    [length + 1 - lastIndex] rounds already suffice: the loop stops when
    [lastIndex] exceeds the length.  Integers are unbounded: indices are
    [nat] and code units are [N] (JavaScript code units are 16-bit; no
    arithmetic on them can overflow here).

    ** Not modelled
    - The .vue components: they are not among the sources, so they are
      opaque names.
    - The bundler's configuration: BASE_URL is a parameter, and the map
      from a resolved file to the module it evaluates to is
      [module_default].  Resolution itself is in [Modules], with the "@"
      alias of the create-vue configuration, which is not in the
      repository.
    - Regex features the literal does not use: quantifiers, classes,
      groups and assertions.  They never run on this program.
    - Thenable resolution of promises: the program resolves promises only
      with module namespaces and [undefined], which are not thenables.
    - The run of the eager entry point src/desktop/components/js/main.js
      line 5.  Its imports resolve to files that are not in the repository
      ([Modules]), so the [App] and [router] it would use are not
      determined by the sources; only its imports are modelled.  No page
      of the repository loads it (index.html is not among the sources).
    - The hash-base branch of vue-router's [createCurrentLocation]: the
      router's base has no '#'.
    - Vue's rendering.  The router defines no navigation guards and its
      route components are imported statically, so the promise chain of
      the initial [push] is one step, [StepNavigate], which the step
      relation lets happen at any point after [install] (the actual
      microtask order is one of those interleavings).
    - Query strings and hashes of locations.

    ** How the development was built
    The components were modelled in this order: the bootstrap (the
    program's behaviour), the classifier and its regex engine, the routing
    table, then the runtime and the promises it rests on.  Next came
    module resolution, the well-formedness of the runtime's states and of
    the promise store, the bounds of RegExpBuiltinExec, and the router's
    initial navigation as a step of its own after the mount.  What the
    three source files do is modelled; the rest of the program (the .vue
    files, index.html, the build configuration) is not in the repository.
    A claim's theorem is proved from a helper lemma wherever another proof
    needs the same fact, so that no proof depends on a claim. *)


From stdpp Require Export base list decidable numbers strings sets gmap.
From Stdlib Require Ascii String.

(** ** JavaScript strings

    A JavaScript string is a sequence of UTF-16 code units; a code unit is
    kept as an [N]. *)

Abbreviation js_string := (list N) (only parsing).

Declare Scope mypoems_scope.
Delimit Scope mypoems_scope with mp.
Open Scope mypoems_scope.

(** A Rocq string literal seen as the JavaScript string of the same ASCII
    characters (every ASCII character is one UTF-16 code unit). *)
Definition js_of_string (s : String.string) : js_string :=
  map Ascii.N_of_ascii (String.list_ascii_of_string s).

Notation "'js[' s ']'" := (js_of_string s%string) (s at level 200) : mypoems_scope.

(** ASCII upper-casing of one code unit: [a..z] to [A..Z], the rest unchanged. *)
Definition ascii_upcase (c : N) : N :=
  if ((97 <=? c) && (c <=? 122))%N then (c - 32)%N else c.

Create HintDb mypoems.
Create Rewrite HintDb mypoems_rw.

Ltac inv_clear H := inversion H; subst; clear H.

Lemma ascii_upcase_lt128 c : (c < 128)%N -> (ascii_upcase c < 128)%N.
Proof. unfold ascii_upcase. destruct (_ && _)%N; lia. Qed.

Lemma ascii_upcase_ge128 c : (128 <= c)%N -> ascii_upcase c = c.
Proof.
  unfold ascii_upcase. intros H.
  destruct (97 <=? c)%N eqn:E1, (c <=? 122)%N eqn:E2; simpl; try reflexivity.
  apply N.leb_le in E2. lia.
Qed.

Lemma N_of_ascii_lt256 a : (Ascii.N_of_ascii a < 256)%N.
Proof.
  destruct a as [[] [] [] [] [] [] [] []]; vm_compute; reflexivity.
Qed.

#[export] Hint Resolve ascii_upcase_lt128 : mypoems.

(** Looking up the head of a suffix. *)
Lemma rev_replicate {A} n (x : A) : rev (replicate n x) = replicate n x.
Proof. induction n as [|n IH]; [reflexivity|]. simpl. rewrite IH, <- replicate_S_end. reflexivity. Qed.

Lemma take_S_drop {A} (l : list A) (i n : nat) :
  take (S n) (drop i l) =
  match l !! i with Some x => x :: take n (drop (S i) l) | None => [] end.
Proof.
  destruct (l !! i) as [x|] eqn:E.
  - rewrite (drop_S l x i E). reflexivity.
  - apply lookup_ge_None in E. rewrite drop_ge by lia. reflexivity.
Qed.

(** ** Occurrence of a word in a list, up to a normalisation [f]

    [occurs_at f a l i]: the slice of [l] of the length of [a] starting at
    [i] equals [a] once both are normalised by [f]. *)
Section Occurs.
Context {A B : Type}.
Implicit Types (f g : A -> B) (a l : list A).

Definition occurs_at f a l (i : nat) : Prop :=
  map f (take (length a) (drop i l)) = map f a.

#[global] Instance occurs_at_dec `{EqDecision B} f a l i : Decision (occurs_at f a l i).
Proof. unfold occurs_at. apply _. Defined.

Lemma occurs_at_nil f l i : occurs_at f [] l i.
Proof. reflexivity. Qed.

Lemma occurs_at_cons f x a l i :
  occurs_at f (x :: a) l i <->
  (exists y, l !! i = Some y /\ f y = f x) /\ occurs_at f a l (S i).
Proof.
  unfold occurs_at. simpl length. rewrite take_S_drop.
  destruct (l !! i) as [y|]; simpl.
  - split; [intros [= H1 H2]; eauto | intros [(z & [= <-] & H1) H2]; rewrite H1, H2; reflexivity].
  - split; [discriminate | intros [(z & ? & _) _]; discriminate].
Qed.

(** Two normalisations that agree on comparisons with the letters of [a]
    find the same occurrences of [a]. *)
Lemma occurs_at_iff f g a l i :
  (forall y x, x ∈ a -> f y = f x <-> g y = g x) ->
  occurs_at f a l i <-> occurs_at g a l i.
Proof.
  revert i. induction a as [|x a IH]; intros i Hfg; [split; intros; apply occurs_at_nil|].
  rewrite !occurs_at_cons, IH by (intros; apply Hfg; by apply list_elem_of_further).
  split; intros [(y & Hy & Hf) Ho]; (split; [exists y; split; [exact Hy|] | exact Ho]);
    apply (Hfg y x (list_elem_of_here x a)); exact Hf.
Qed.

Lemma occurs_at_fits f a l i : occurs_at f a l i -> length a <= length l - i.
Proof.
  unfold occurs_at. intros H. apply (f_equal length) in H.
  rewrite !length_map, length_take, length_drop in H. lia.
Qed.

Lemma occurs_at_bound f a l i : a <> [] -> occurs_at f a l i -> i < length l.
Proof.
  intros Ha H%occurs_at_fits. destruct a; [congruence|]. simpl in H. lia.
Qed.

(** An occurrence survives any text around it. *)
Lemma occurs_at_app f a l i pre post :
  occurs_at f a l i -> occurs_at f a (pre ++ l ++ post) (length pre + i).
Proof.
  intros H. pose proof (occurs_at_fits f a l i H) as Hfit. unfold occurs_at in *.
  rewrite drop_app_add. destruct (decide (i <= length l)).
  - rewrite drop_app_le, take_app_le by (rewrite ?length_drop; lia). exact H.
  - destruct a; [reflexivity|]. simpl in Hfit. lia.
Qed.

End Occurs.

#[export] Hint Resolve occurs_at_nil : mypoems.

(** ** Lists updated by index *)

Lemma lookup_snoc_ne {A} (l : list A) (x : A) j :
  j <> length l -> (l ++ [x]) !! j = l !! j.
Proof.
  intros Hj. destruct (decide (j < length l)).
  - apply lookup_app_l. lia.
  - rewrite lookup_app_r by lia. rewrite (lookup_ge_None_2 l j) by lia.
    destruct (j - length l) as [|k] eqn:E; [lia | reflexivity].
Qed.

Lemma lookup_snoc_eq {A} (l : list A) (x : A) : (l ++ [x]) !! length l = Some x.
Proof. rewrite lookup_app_r, Nat.sub_diag by lia. reflexivity. Qed.

(** Updating index [i] with [f] of its value: lookups elsewhere unchanged. *)
Lemma lookup_insert_some_ne {A} (l : list A) i j x : i <> j -> <[i := x]> l !! j = l !! j.
Proof. apply list_lookup_insert_ne. Qed.

Lemma lookup_insert_some_eq {A} (l : list A) i x y : l !! i = Some y -> <[i := x]> l !! i = Some x.
Proof. intros H. apply list_lookup_insert_eq. apply lookup_lt_Some in H. exact H. Qed.

#[export] Hint Rewrite @lookup_snoc_eq : mypoems_rw.

(** ** Sequences of steps *)

Section Star.
Context {A : Type} (R : A -> A -> Prop).

Inductive star : A -> A -> Prop :=
  | star_refl a : star a a
  | star_step a b c : R a b -> star b c -> star a c.

Lemma star_one a b : R a b -> star a b.
Proof. eauto using star. Qed.

Lemma star_trans a b c : star a b -> star b c -> star a c.
Proof. induction 1; eauto using star. Qed.

(** A set of states closed under [R] contains everything reachable from
    its members. *)
Lemma star_closed (P : A -> Prop) a b :
  (forall x y, P x -> R x y -> P y) -> P a -> star a b -> P b.
Proof. intros Hc Ha Hs. induction Hs; eauto. Qed.

Definition terminal (a : A) : Prop := forall b, ~ R a b.

End Star.

#[export] Hint Constructors star : mypoems.
#[export] Hint Resolve star_one star_trans : mypoems.
