(* ===== verification/Regex.v ===== *)
(** * The ECMAScript regular-expression engine, for the patterns of src/main.js

    [src/main.js] line 5 evaluates a regular-expression literal with the [i]
    flag and calls [RegExp.prototype.test] on it.  This file models the part
    of ECMA-262 (section 22.2) that such a call runs: the pattern as the
    grammar parses it (a Disjunction of Alternatives of PatternCharacters),
    Canonicalize for the non-Unicode [i] flag, the continuation-passing
    matchers of 22.2.2, the [lastIndex] loop of RegExpBuiltinExec (22.2.7.2)
    and [test] (22.2.6.16).  The matcher is executable; its theorems relate
    it to a plain literal-occurrence test. *)

From S2P Require Import Prelude.

Module Regex.

(** ** Case mapping

    Canonicalize needs Unicode's toUppercase of a one-code-unit string.  The
    Unicode tables are not modelled: the development is parametric in them,
    and assumes only what Unicode fixes for ASCII. *)
Class CaseMapping := {
  to_upper : N -> list N;
  to_upper_ascii : forall c, (c < 128)%N -> to_upper c = [ascii_upcase c]
}.

(** A mapping that is ASCII-correct and the identity elsewhere; it is used
    only to run the definitions on concrete inputs. *)
Definition ascii_case_mapping : CaseMapping.
Proof. refine {| to_upper c := [ascii_upcase c] |}. reflexivity. Defined.

(** ** Syntax and flags *)

Inductive term := PatternCharacter (ch : N).
#[export] Instance term_eq_dec : EqDecision term.
Proof. solve_decision. Defined.

Definition alternative := list term.
Definition disjunction := list alternative.

Record flags := mk_flags { ignoreCase : bool; global : bool; sticky : bool }.

(** The RegExp object: its pattern, its flags and its [lastIndex] property. *)
Record RegExp := mk_regexp {
  re_source : disjunction;
  re_flags : flags;
  lastIndex : nat
}.

Definition set_lastIndex (R : RegExp) (n : nat) : RegExp :=
  mk_regexp (re_source R) (re_flags R) n.

Section Matcher.
Context `{CM : CaseMapping}.

(** 22.2.2.7.3 Canonicalize, without the [u]/[v] flags. *)
Definition canonicalize (rer : flags) (ch : N) : N :=
  if ignoreCase rer then
    match to_upper ch with
    | [cu] => if ((128 <=? ch) && (cu <? 128))%N then ch else cu
    | _ => ch
    end
  else ch.

(** A MatchState is its endIndex (the patterns have no capture groups); a
    continuation maps a state to a final state or failure. *)
Definition continuation := nat -> option nat.
Definition matcher := nat -> continuation -> option nat.

Variable rer : flags.
Variable input : js_string.

(** 22.2.2.7.1 CharacterSetMatcher for the one-character set of a
    PatternCharacter, forward direction. *)
Definition character_matcher (ch : N) : matcher := fun e c =>
  match input !! e with
  | Some x => if decide (canonicalize rer x = canonicalize rer ch) then c (S e) else None
  | None => None
  end.

(** 22.2.2.3 Alternative: the terms matched left to right, each one passing
    the rest as its continuation; the empty Alternative calls [c]. *)
Fixpoint compile_alternative (a : alternative) : matcher :=
  match a with
  | [] => fun x c => c x
  | PatternCharacter ch :: a' =>
      fun x c => character_matcher ch x (fun y => compile_alternative a' y c)
  end.

(** 22.2.2.2 Disjunction: the left alternative first, the right one only on
    failure. *)
Fixpoint compile_disjunction (d : disjunction) : matcher :=
  match d with
  | [] => fun _ _ => None
  | a :: d' => fun x c =>
      match compile_alternative a x c with
      | Some r => Some r
      | None => compile_disjunction d' x c
      end
  end.

(** 22.2.2.1 Pattern: the matcher applied with the continuation that
    succeeds at once. *)
Definition pattern_matcher (d : disjunction) (i : nat) : option nat :=
  compile_disjunction d i Some.

(** The repeat loop of RegExpBuiltinExec, step 13: [None] only when the fuel
    runs out (never, by [exec_loop_some]); [Some None] is a failed match;
    [Some (Some (i, e))] a match of [input[i..e)]. *)
Fixpoint exec_loop (d : disjunction) (fuel : nat) (li : nat) : option (option (nat * nat)) :=
  match fuel with
  | O => None
  | S fuel' =>
      if length input <? li then Some None
      else match pattern_matcher d li with
           | Some e => Some (Some (li, e))
           | None => if sticky rer then Some None else exec_loop d fuel' (S li)
           end
  end.

End Matcher.

(** 22.2.7.2 RegExpBuiltinExec: the match found (start and end index) and
    the RegExp object with its [lastIndex] as the algorithm leaves it. *)
Definition regexp_builtin_exec `{CaseMapping} (R : RegExp) (S : js_string)
    : option (nat * nat) * RegExp :=
  let fl := re_flags R in
  let li := if global fl || sticky fl then lastIndex R else 0 in
  match exec_loop fl S (re_source R) (Datatypes.S (Datatypes.S (length S) - li)) li with
  | Some (Some (i, e)) => (Some (i, e), if global fl || sticky fl then set_lastIndex R e else R)
  | _ => (None, if global fl || sticky fl then set_lastIndex R 0 else R)
  end.

(** 22.2.6.16 RegExp.prototype.test. *)
Definition regexp_test `{CaseMapping} (R : RegExp) (S : js_string) : bool * RegExp :=
  let '(m, R') := regexp_builtin_exec R S in
  (match m with Some _ => true | None => false end, R').

(** ** Literal patterns

    Every Alternative of the pattern of src/main.js is a literal: a list of
    PatternCharacters. *)
Definition literal (a : list N) : alternative := map PatternCharacter a.

Section Theory.
Context `{CM : CaseMapping}.
Variable rer : flags.
Variable input : js_string.

(** [a] occurs at index [i] of the input up to canonicalization. *)
Definition matches_at (a : list N) (i : nat) : Prop :=
  occurs_at (canonicalize rer) a input i.

#[local] Instance matches_at_dec a i : Decision (matches_at a i).
Proof. unfold matches_at. apply _. Defined.

Lemma matches_at_cons ch a i :
  matches_at (ch :: a) i <->
  (exists x, input !! i = Some x /\ canonicalize rer x = canonicalize rer ch) /\ matches_at a (S i).
Proof. apply occurs_at_cons. Qed.

(** A literal alternative consumes exactly its length when it occurs, and
    fails otherwise, whatever the continuation. *)
Lemma compile_literal a i c :
  compile_alternative rer input (literal a) i c =
  if decide (matches_at a i) then c (i + length a) else None.
Proof.
  revert i. induction a as [|ch a IH]; intros i; simpl.
  - f_equal. lia.
  - unfold character_matcher. rewrite IH.
    destruct (decide (matches_at (ch :: a) i)) as [Hm|Hm].
    + apply matches_at_cons in Hm as [(x & Hx & Hc) Ha]. rewrite Hx.
      rewrite decide_True by exact Hc. rewrite decide_True by exact Ha. f_equal. simpl. lia.
    + destruct (input !! i) as [x|] eqn:Ex; [|reflexivity].
      case_decide as Hc; [|reflexivity]. rewrite decide_False; [reflexivity|].
      intros Ha. apply Hm, matches_at_cons. eauto.
Qed.

Lemma pattern_literals_find (ts : list (list N)) i :
  pattern_matcher rer input (map literal ts) i =
  (fun t => i + length t) <$> find (fun t => bool_decide (matches_at t i)) ts.
Proof.
  unfold pattern_matcher. induction ts as [|t ts IH]; simpl; [reflexivity|].
  rewrite compile_literal. destruct (decide (matches_at t i)) as [H|H].
  - rewrite bool_decide_eq_true_2 by exact H. reflexivity.
  - rewrite bool_decide_eq_false_2 by exact H. exact IH.
Qed.

(** C25: a Disjunction of literal alternatives succeeds at [i] with the
    first alternative, in the order written, that occurs there, and ends
    after it. *)
Lemma pattern_literals (ts : list (list N)) i :
  pattern_matcher rer input (map literal ts) i =
  (fun t => i + length t) <$> find (fun t => bool_decide (matches_at t i)) ts.
Proof. exact (pattern_literals_find ts i). Qed.

Lemma pattern_literals_is_Some (ts : list (list N)) i :
  is_Some (pattern_matcher rer input (map literal ts) i) <-> exists t, t ∈ ts /\ matches_at t i.
Proof.
  rewrite pattern_literals_find. split.
  - intros [r Hr]. apply fmap_Some in Hr as (t & Ht & _).
    apply find_some in Ht as [Hin Hb]. apply bool_decide_eq_true in Hb.
    exists t. split; [apply list_elem_of_In|]; assumption.
  - intros (t & Hin & Hm). destruct (find _ ts) eqn:E; [eexists; reflexivity|].
    apply list_elem_of_In in Hin. pose proof (find_none _ _ E t Hin) as Hf.
    apply bool_decide_eq_false in Hf. contradiction.
Qed.

(** [r] is what a leftmost search from [li] must return. *)
Definition leftmost_match (d : disjunction) (li : nat) (r : option (nat * nat)) : Prop :=
  match r with
  | Some (j, e) =>
      li <= j <= length input /\ pattern_matcher rer input d j = Some e /\
      forall k, li <= k < j -> pattern_matcher rer input d k = None
  | None => forall k, li <= k <= length input -> pattern_matcher rer input d k = None
  end.

Lemma exec_loop_some d fuel li :
  S (length input) - li < fuel -> exec_loop rer input d fuel li <> None.
Proof.
  revert li. induction fuel as [|fuel IH]; intros li Hf; simpl; [lia|].
  destruct (Nat.ltb_spec (length input) li); [discriminate|].
  destruct (pattern_matcher rer input d li); [discriminate|].
  destruct (sticky rer); [discriminate|]. apply IH. lia.
Qed.

(** C23: the [lastIndex] loop of RegExpBuiltinExec terminates: with more
    fuel than [length input + 1 - li] it never runs out. *)
Lemma exec_loop_total d fuel li :
  S (length input) - li < fuel -> exec_loop rer input d fuel li <> None.
Proof. exact (exec_loop_some d fuel li). Qed.

(** Without the [y] flag the loop is a leftmost search. *)
Lemma exec_loop_leftmost d fuel li r :
  sticky rer = false -> exec_loop rer input d fuel li = Some r -> leftmost_match d li r.
Proof.
  intros Hs. revert li. induction fuel as [|fuel IH]; intros li; simpl; [discriminate|].
  destruct (Nat.ltb_spec (length input) li) as [Hlt|Hle].
  { intros [= <-] k Hk. lia. }
  destruct (pattern_matcher rer input d li) as [e|] eqn:Em.
  - intros [= <-]. simpl. split; [lia|]. split; [exact Em|]. intros k Hk. lia.
  - rewrite Hs. intros Hl. specialize (IH _ Hl). destruct r as [[j e]|]; simpl in *.
    + destruct IH as (Hj & Hje & Hbefore). split; [lia|]. split; [exact Hje|].
      intros k Hk. destruct (decide (k = li)) as [->|]; [exact Em|]. apply Hbefore. lia.
    + intros k Hk. destruct (decide (k = li)) as [->|]; [exact Em|]. apply IH. lia.
Qed.

(** ** Where a match can end *)

(** A matcher calls its continuation at an index no smaller than where it
    started, which is that index or an index of the input. *)
Definition advances (x y : nat) : Prop := x <= y /\ (y = x \/ y <= length input).

Lemma advances_refl x : advances x x.
Proof. split; [lia | left; reflexivity]. Qed.

Lemma compile_alternative_advances a x c r :
  compile_alternative rer input a x c = Some r -> exists y, advances x y /\ c y = Some r.
Proof.
  revert x. induction a as [|[ch] a IH]; intros x H; [exists x; split; [apply advances_refl | exact H]|].
  simpl in H. unfold character_matcher in H.
  destruct (input !! x) as [z|] eqn:Ex; [|discriminate]. case_decide; [|discriminate].
  apply lookup_lt_Some in Ex. destruct (IH _ H) as (y & [Hy1 Hy2] & Hc).
  exists y. split; [split; [lia | right; lia] | exact Hc].
Qed.

Lemma compile_disjunction_advances d x c r :
  compile_disjunction rer input d x c = Some r -> exists y, advances x y /\ c y = Some r.
Proof.
  induction d as [|a d IH]; simpl; [discriminate|].
  destruct (compile_alternative rer input a x c) as [r'|] eqn:E.
  - intros [= <-]. exact (compile_alternative_advances a x c r' E).
  - exact IH.
Qed.

Lemma pattern_matcher_advances d i e : pattern_matcher rer input d i = Some e -> advances i e.
Proof. intros H. destruct (compile_disjunction_advances d i Some e H) as (y & Hy & [= ->]). exact Hy. Qed.

(** A match the loop reports starts at or after [li] and ends inside the
    input. *)
Lemma exec_loop_bounds d fuel li i e :
  exec_loop rer input d fuel li = Some (Some (i, e)) -> li <= i <= e /\ e <= length input.
Proof.
  revert li. induction fuel as [|fuel IH]; intros li; simpl; [discriminate|].
  destruct (Nat.ltb_spec (length input) li) as [|Hle]; [discriminate|].
  destruct (pattern_matcher rer input d li) as [e'|] eqn:Em.
  - intros [= <- <-]. destruct (pattern_matcher_advances d li e' Em) as [H1 [H2|H2]]; lia.
  - destruct (sticky rer); [discriminate|]. intros H. specialize (IH _ H). lia.
Qed.

End Theory.

(** ** RegExpBuiltinExec and test *)

Section Exec.
Context `{CM : CaseMapping}.

Lemma builtin_exec_nonglobal (R : RegExp) (S : js_string) :
  global (re_flags R) = false -> sticky (re_flags R) = false ->
  snd (regexp_builtin_exec R S) = R /\
  leftmost_match (re_flags R) S (re_source R) 0 (fst (regexp_builtin_exec R S)).
Proof.
  intros Hg Hs. unfold regexp_builtin_exec. cbv zeta. rewrite Hg, Hs. cbn [orb].
  match goal with |- context [exec_loop ?f ?s ?d ?n ?l] =>
    destruct (exec_loop f s d n l) as [r|] eqn:E end.
  - apply exec_loop_leftmost in E; [|exact Hs].
    destruct r as [[i e]|]; split; simpl; auto.
  - exfalso. revert E. apply exec_loop_some. lia.
Qed.

(** C24: without [g] and [y], exec searches from index 0 whatever
    [lastIndex] holds, returns the leftmost match, and leaves the RegExp
    object as it was. *)
Lemma builtin_exec_stateless (R : RegExp) (S : js_string) :
  global (re_flags R) = false -> sticky (re_flags R) = false ->
  snd (regexp_builtin_exec R S) = R /\
  leftmost_match (re_flags R) S (re_source R) 0 (fst (regexp_builtin_exec R S)).
Proof. exact (builtin_exec_nonglobal R S). Qed.

(** [test] answers whether the pattern matches at some index [0..length]. *)
Lemma regexp_test_iff (R : RegExp) (S : js_string) :
  global (re_flags R) = false -> sticky (re_flags R) = false ->
  fst (regexp_test R S) = true <->
  exists k, k <= length S /\ is_Some (pattern_matcher (re_flags R) S (re_source R) k).
Proof.
  intros Hg Hs. destruct (builtin_exec_nonglobal R S Hg Hs) as [_ Hl].
  unfold regexp_test. destruct (regexp_builtin_exec R S) as [[[j e]|] R']; simpl in *.
  - split; [|reflexivity]. intros _. exists j. destruct Hl as (? & -> & _). split; [lia | eexists; reflexivity].
  - split; [discriminate|]. intros (k & Hk & [e He]). rewrite Hl in He by lia. discriminate.
Qed.

Lemma regexp_test_stateless (R : RegExp) (S : js_string) :
  global (re_flags R) = false -> sticky (re_flags R) = false ->
  snd (regexp_test R S) = R.
Proof.
  intros Hg Hs. destruct (builtin_exec_nonglobal R S Hg Hs) as [HR _].
  unfold regexp_test. destruct (regexp_builtin_exec R S). exact HR.
Qed.

(** C27: a match RegExpBuiltinExec reports lies inside the string
    ([0 <= i <= e <= length S]); with [g] or [y] the [lastIndex] it leaves
    is at most the string's length, whatever it was before; the pattern and
    flags are never changed. *)
Theorem regexp_builtin_exec_bounds (R : RegExp) (S : js_string) :
  (forall i e, fst (regexp_builtin_exec R S) = Some (i, e) -> i <= e <= length S) /\
  (global (re_flags R) || sticky (re_flags R) = true -> lastIndex (snd (regexp_builtin_exec R S)) <= length S) /\
  re_source (snd (regexp_builtin_exec R S)) = re_source R /\
  re_flags (snd (regexp_builtin_exec R S)) = re_flags R.
Proof.
  unfold regexp_builtin_exec. cbv zeta.
  destruct (global (re_flags R) || sticky (re_flags R)) eqn:Eg;
  match goal with |- context [exec_loop ?f ?s ?d ?n ?l] =>
    destruct (exec_loop f s d n l) as [[[i e]|]|] eqn:E end; simpl;
  try (apply exec_loop_bounds in E as [? ?]);
  (split; [intros ? ? [= <- <-]; lia |]); split; try (intros; lia); auto.
Qed.

End Exec.

(** ** Canonicalize on ASCII

    With the [i] flag, a code unit canonicalizes to the same value as an
    ASCII character exactly when the two are equal up to ASCII case: a
    non-ASCII code unit never canonicalizes below 128. *)
Section Ascii.
Context `{CM : CaseMapping}.
Variable rer : flags.
Hypothesis Hi : ignoreCase rer = true.

Lemma canonicalize_lt128 c : (c < 128)%N -> canonicalize rer c = ascii_upcase c.
Proof.
  intros Hc. unfold canonicalize. rewrite Hi, to_upper_ascii by exact Hc.
  destruct (N.leb_spec 128 c); [lia | reflexivity].
Qed.

Lemma canonicalize_ge128 c : (128 <= c)%N -> (128 <= canonicalize rer c)%N.
Proof.
  intros Hc. unfold canonicalize. rewrite Hi.
  destruct (to_upper c) as [|cu [|]]; try lia.
  destruct (N.leb_spec 128 c), (N.ltb_spec cu 128); simpl; lia.
Qed.

Lemma canonicalize_ascii_iff x y : (y < 128)%N ->
  canonicalize rer x = canonicalize rer y <-> ascii_upcase x = ascii_upcase y.
Proof.
  intros Hy. rewrite (canonicalize_lt128 y Hy).
  pose proof (ascii_upcase_lt128 y Hy).
  destruct (N.lt_ge_cases x 128) as [Hx|Hx].
  - rewrite (canonicalize_lt128 x Hx). reflexivity.
  - pose proof (canonicalize_ge128 x Hx). rewrite (ascii_upcase_ge128 x Hx).
    split; intros; lia.
Qed.

(** C26: with the [i] flag, a code unit canonicalizes like an ASCII
    character exactly when the two are equal up to ASCII case. *)
Lemma canonicalize_eq_ascii x y : (y < 128)%N ->
  canonicalize rer x = canonicalize rer y <-> ascii_upcase x = ascii_upcase y.
Proof. exact (canonicalize_ascii_iff x y). Qed.

(** Matching an ASCII literal with the [i] flag is ASCII-case-insensitive
    occurrence. *)
Lemma matches_at_ascii (a : list N) input i :
  Forall (fun c => c < 128)%N a ->
  matches_at rer input a i <-> occurs_at ascii_upcase a input i.
Proof.
  intros Ha. apply occurs_at_iff. intros y x Hx.
  apply canonicalize_ascii_iff. rewrite Forall_forall in Ha. exact (Ha x Hx).
Qed.

End Ascii.

(** ** Witnesses on concrete inputs *)

Definition example_flags : flags := mk_flags true false false.

Lemma exec_loop_total_witness :
  S (length js["iPad"]) - 0 < 6 /\
  @exec_loop ascii_case_mapping example_flags js["iPad"] (map literal [js["iPod"]]) 6 0 <> None.
Proof.
  split; [simpl; lia|].
  apply (@exec_loop_total ascii_case_mapping). simpl. lia.
Defined.

Lemma builtin_exec_stateless_witness :
  let R := mk_regexp (map literal [js["Phone"]]) example_flags 7 in
  global (re_flags R) = false /\ sticky (re_flags R) = false /\
  snd (@regexp_builtin_exec ascii_case_mapping R js["Windows phone"]) = R /\
  @leftmost_match ascii_case_mapping (re_flags R) js["Windows phone"] (re_source R) 0
    (fst (@regexp_builtin_exec ascii_case_mapping R js["Windows phone"])).
Proof.
  intros R. split; [reflexivity|]. split; [reflexivity|].
  apply (@builtin_exec_stateless ascii_case_mapping); reflexivity.
Defined.

Lemma canonicalize_eq_ascii_witness :
  ignoreCase example_flags = true /\ (65 < 128)%N /\
  (@canonicalize ascii_case_mapping example_flags 97 = @canonicalize ascii_case_mapping example_flags 65
   <-> ascii_upcase 97 = ascii_upcase 65).
Proof.
  split; [reflexivity|]. split; [vm_compute; reflexivity|].
  apply (@canonicalize_eq_ascii ascii_case_mapping example_flags eq_refl). vm_compute. reflexivity.
Defined.

Lemma regexp_builtin_exec_bounds_witness :
  let R := mk_regexp (map literal [js["iPod"]]) (mk_flags true true false) 100 in
  global (re_flags R) || sticky (re_flags R) = true /\
  lastIndex (snd (@regexp_builtin_exec ascii_case_mapping R js["iPod touch"])) <= length js["iPod touch"].
Proof.
  intros R. split; [reflexivity|].
  apply (proj1 (proj2 (@regexp_builtin_exec_bounds ascii_case_mapping R js["iPod touch"]))). reflexivity.
Defined.

End Regex.
