(* ===== verification/Device.v ===== *)
(** * The device classifier of src/main.js (lines 4-7)

    [const isMobile = /Android|iPhone|iPad|iPod|Windows Phone|webOS|BlackBerry/i
       .test(navigator.userAgent)]

    The literal is a fresh RegExp object with the [i] flag only and
    [lastIndex] 0; [test] converts its argument with ToString, so an absent
    [userAgent] ([undefined]) is tested as the string "undefined".  The
    theorems show that [isMobile] is exactly "some token occurs in the user
    agent up to ASCII case", for every Unicode case table that is correct on
    ASCII. *)

From S2P Require Import Prelude Regex.
Import Regex.

Module Device.

(** The values [navigator.userAgent] can hold when it is read. *)
Inductive js_value := JsUndefined | JsString (s : js_string).

(** ToString, on those values. *)
Definition to_string (v : js_value) : js_string :=
  match v with
  | JsUndefined => js["undefined"]
  | JsString s => s
  end.

(** The alternatives of the literal, in source order. *)
Definition mobile_tokens : list js_string :=
  [js["Android"]; js["iPhone"]; js["iPad"]; js["iPod"]; js["Windows Phone"];
   js["webOS"]; js["BlackBerry"]].

(** The RegExp object the literal evaluates to. *)
Definition mobile_regexp : RegExp :=
  mk_regexp (map literal mobile_tokens) (mk_flags true false false) 0.

Definition isMobile `{CaseMapping} (userAgent : js_value) : bool :=
  fst (regexp_test mobile_regexp (to_string userAgent)).

(** ** Reference specification: ASCII-case-insensitive containment *)

Definition contains_ci (tok s : js_string) : Prop :=
  exists i, occurs_at ascii_upcase tok s i.

Definition mobile_spec (s : js_string) : Prop :=
  exists tok, tok ∈ mobile_tokens /\ contains_ci tok s.

Section Classifier.
Context `{CM : CaseMapping}.

Lemma mobile_tokens_wf :
  Forall (fun t => t <> [] /\ Forall (fun c => (c < 128)%N) t) mobile_tokens.
Proof. apply (bool_decide_unpack _). vm_compute. reflexivity. Qed.

Lemma mobile_token_wf t :
  t ∈ mobile_tokens -> t <> [] /\ Forall (fun c => (c < 128)%N) t.
Proof. intros Ht. pose proof mobile_tokens_wf as H. rewrite Forall_forall in H. auto. Qed.

Lemma mobile_regexp_test_stateless s : snd (regexp_test mobile_regexp s) = mobile_regexp.
Proof. apply regexp_test_stateless; reflexivity. Qed.

Lemma mobile_matches_at_ascii t s i :
  t ∈ mobile_tokens ->
  matches_at (re_flags mobile_regexp) s t i <-> occurs_at ascii_upcase t s i.
Proof. intros Ht. apply matches_at_ascii; [reflexivity | apply mobile_token_wf, Ht]. Qed.

Lemma isMobile_iff ua : isMobile ua = true <-> mobile_spec (to_string ua).
Proof.
  unfold isMobile, mobile_spec, contains_ci.
  rewrite regexp_test_iff by reflexivity. split.
  - intros (k & _ & Hs). apply pattern_literals_is_Some in Hs as (t & Ht & Hm).
    exists t. split; [exact Ht|]. exists k. apply mobile_matches_at_ascii; assumption.
  - intros (t & Ht & i & Ho). destruct (mobile_token_wf t Ht) as [Hne _].
    exists i. split; [apply occurs_at_bound in Ho; [lia | exact Hne]|].
    apply pattern_literals_is_Some. exists t. split; [exact Ht|].
    apply mobile_matches_at_ascii; assumption.
Qed.

(** C4: [isMobile] holds exactly when one of the seven tokens occurs in the
    user agent (converted by ToString), up to ASCII case. *)
Theorem isMobile_spec ua : isMobile ua = true <-> mobile_spec (to_string ua).
Proof. exact (isMobile_iff ua). Qed.

End Classifier.

(** The classifier run on the ASCII case table decides the reference. *)
#[export] Instance mobile_spec_dec s : Decision (mobile_spec s).
Proof.
  destruct (@isMobile ascii_case_mapping (JsString s)) eqn:E; [left | right];
    rewrite <- (@isMobile_iff ascii_case_mapping (JsString s)); [exact E | congruence].
Defined.

Section Properties.
Context `{CM : CaseMapping}.

Lemma isMobile_table_indep (CM' : CaseMapping) ua :
  @isMobile CM ua = @isMobile CM' ua.
Proof.
  apply Bool.eq_true_iff_eq. rewrite (@isMobile_iff CM), (@isMobile_iff CM'). reflexivity.
Qed.

(** C17: the classification does not depend on how Unicode upper-cases the
    non-ASCII code units. *)
Theorem isMobile_case_table_independent (CM' : CaseMapping) ua :
  @isMobile CM ua = @isMobile CM' ua.
Proof. exact (isMobile_table_indep CM' ua). Qed.

Lemma isMobile_of_occurs t s i :
  t ∈ mobile_tokens -> occurs_at ascii_upcase t s i -> isMobile (JsString s) = true.
Proof. intros Ht Ho. apply isMobile_iff. exists t. split; [exact Ht | exists i; exact Ho]. Qed.

(** C18: any user agent containing a token spelt in any ASCII case, with any
    text around it, is classified mobile. *)
Theorem isMobile_token_any_case t w pre post :
  t ∈ mobile_tokens -> map ascii_upcase w = map ascii_upcase t ->
  isMobile (JsString (pre ++ w ++ post)) = true.
Proof.
  intros Ht Hw. apply (isMobile_of_occurs t _ (length pre + 0) Ht), occurs_at_app.
  unfold occurs_at. rewrite drop_0, take_ge; [exact Hw|].
  apply (f_equal length) in Hw. rewrite !length_map in Hw. lia.
Qed.

(** C19: classification is monotone: a superstring of a mobile user agent is
    mobile. *)
Theorem isMobile_superstring pre s post :
  isMobile (JsString s) = true -> isMobile (JsString (pre ++ s ++ post)) = true.
Proof.
  rewrite isMobile_iff. intros (t & Ht & i & Ho).
  apply (isMobile_of_occurs t _ (length pre + i) Ht), occurs_at_app, Ho.
Qed.

(** C20: [test] leaves the RegExp object as it found it (the literal has no
    [g] or [y] flag), so testing again with the object it returns gives the
    same answer and the same object: classification is idempotent. *)
Theorem isMobile_test_idempotent s :
  regexp_test (snd (regexp_test mobile_regexp s)) s = regexp_test mobile_regexp s.
Proof. rewrite mobile_regexp_test_stateless. reflexivity. Qed.

End Properties.

(** ** Scenarios of the specification, and witnesses *)

Definition ua_android : js_value := JsString js["Mozilla/5.0 (Linux; Android 10)"].
Definition ua_windows : js_value := JsString js["Mozilla/5.0 (Windows NT 10.0; Win64; x64)"].

Lemma classify_by_ascii_table `{CM : CaseMapping} ua :
  isMobile ua = @isMobile ascii_case_mapping ua.
Proof. apply isMobile_table_indep. Qed.

(** Scenarios A, B and C, for every case table. *)
Example scenario_A `{CaseMapping} : isMobile ua_android = true.
Proof. rewrite classify_by_ascii_table. vm_compute. reflexivity. Qed.

Example scenario_B `{CaseMapping} : isMobile ua_windows = false.
Proof. rewrite classify_by_ascii_table. vm_compute. reflexivity. Qed.

Example scenario_C `{CaseMapping} : isMobile (JsString js[""]) = false.
Proof. rewrite classify_by_ascii_table. vm_compute. reflexivity. Qed.

(** What the missing [g] flag avoids: with it, [test] advances [lastIndex]
    and the second call on the same user agent answers [false]. *)
Example global_flag_alternates :
  let R := mk_regexp (map literal mobile_tokens) (mk_flags true true false) 0 in
  let s := js["Android"] in
  fst (@regexp_test ascii_case_mapping R s) = true /\
  fst (@regexp_test ascii_case_mapping (snd (@regexp_test ascii_case_mapping R s)) s) = false.
Proof. vm_compute. split; reflexivity. Qed.

Lemma isMobile_token_any_case_witness :
  js["Android"] ∈ mobile_tokens /\
  map ascii_upcase js["aNDROId"] = map ascii_upcase js["Android"] /\
  @isMobile ascii_case_mapping (JsString (js["Mozilla/5.0 (Linux; "] ++ js["aNDROId"] ++ js[" 10)"])) = true.
Proof.
  split; [apply list_elem_of_here|]. split; [vm_compute; reflexivity|].
  apply (@isMobile_token_any_case ascii_case_mapping js["Android"]);
    [apply list_elem_of_here | vm_compute; reflexivity].
Defined.

Lemma isMobile_superstring_witness :
  @isMobile ascii_case_mapping (JsString js["webOS"]) = true /\
  @isMobile ascii_case_mapping (JsString (js["Mozilla/5.0 ("] ++ js["webOS"] ++ js["; U)"])) = true.
Proof.
  split; [vm_compute; reflexivity|].
  apply (@isMobile_superstring ascii_case_mapping). vm_compute. reflexivity.
Defined.

End Device.
