(* ===== verification/Router.v ===== *)
(** * The routing table of src/desktop/router/index.js

    [routes] (lines 10-26) is the array of three route records, and
    [router] (lines 28-31) the options passed to [createRouter], with the
    history [createWebHistory(import.meta.env.BASE_URL)].  The router's
    behaviour on these options is vue-router 4's: the history normalizes its
    base ([normalizeBase]), the first location is the page's pathname with
    the base stripped ([stripBase]), and a static route path [p] is compiled
    to the regular expression [^p/?$] with the [i] flag (options
    [sensitive: false], [strict: false], [end: true]).  Paths are ASCII
    JavaScript strings. *)

From S2P Require Import Prelude.

Module Router.

(** The .vue components the sources import: the three pages of this file
    and the two root views of src/main.js. *)
Inductive component := HomePage | About | Books | DesktopApp | MobileApp.

#[export] Instance component_eq_dec : EqDecision component.
Proof. solve_decision. Defined.

Record route_record := mk_route {
  path : js_string;
  name : js_string;
  route_component : component
}.

#[export] Instance route_record_eq_dec : EqDecision route_record.
Proof. solve_decision. Defined.

Definition routes : list route_record :=
  [mk_route js["/"] js["Home"] HomePage;
   mk_route js["/about"] js["About"] About;
   mk_route js["/books"] js["Books"] Books].

(** ** History and router options *)

Definition slash : N := 47.
Definition hash_sign : N := 35.

(** [removeTrailingSlash]: [path.replace(/\/$/, '')]. *)
Definition remove_trailing_slash (p : js_string) : js_string :=
  match last p with Some c => if decide (c = slash) then removelast p else p | None => p end.

(** [normalizeBase]: an empty base becomes '/' (no [<base>] element in the
    document), a base that starts with neither '/' nor '#' gets a leading
    '/', and one trailing '/' is removed. *)
Definition normalize_base (base : js_string) : js_string :=
  let base := match base with [] => [slash] | _ => base end in
  let base := match base with
              | c :: _ => if decide (c = slash \/ c = hash_sign) then base else slash :: base
              | [] => base
              end in
  remove_trailing_slash base.

(** The history object, by the base it keeps. *)
Record history := mk_history { history_base : js_string }.

Definition createWebHistory (base : js_string) : history := mk_history (normalize_base base).

Record router_options := mk_router_options {
  router_history : history;
  router_routes : list route_record
}.

(** [createRouter({ history: createWebHistory(BASE_URL), routes })]. *)
Definition router (BASE_URL : js_string) : router_options :=
  mk_router_options (createWebHistory BASE_URL) routes.

(** ** Locations and matching *)

Definition ascii_downcase (c : N) : N :=
  if ((65 <=? c) && (c <=? 90))%N then (c + 32)%N else c.

(** [stripBase(pathname, base)]: the pathname without the base when it
    starts with it (compared in lower case), and '/' if nothing is left. *)
Definition strip_base (pathname base : js_string) : js_string :=
  match base with
  | [] => pathname
  | _ =>
      if decide (map ascii_downcase (take (length base) pathname) = map ascii_downcase base)
      then match drop (length base) pathname with [] => [slash] | rest => rest end
      else pathname
  end.

(** The first location of the router: the page's pathname with the base of
    the history stripped ([createCurrentLocation] for a base without '#').
    Its other branch, for a base that contains '#' (hash history, which
    reads the location from [location.hash]), is not modelled: a Vite
    [BASE_URL] is a path. *)
Definition current_location (h : history) (pathname : js_string) : js_string :=
  strip_base pathname (history_base h).

(** A static route path [p] compiles to [^p/?$] with the [i] flag
    ([tokensToParser]: each segment adds '/' and its text, then [/?] and
    [$]).  The root path '/' is one segment holding the empty root token,
    so it compiles to [^//?$]: it matches '/' and '//'. *)
Definition path_matches (p loc : js_string) : bool :=
  let q := map ascii_upcase p in
  bool_decide (map ascii_upcase loc = q \/ map ascii_upcase loc = q ++ [slash]).

(** The matcher's [resolve]: the route whose path matches the location;
    [None] is the "no match" location (nothing is rendered). *)
Definition resolve (opts : router_options) (loc : js_string) : option route_record :=
  find (fun r => path_matches (path r) loc) (router_routes opts).

(** ** Theorems *)

(** Splits a hypothesis [r ∈ routes] into the three records. *)
Ltac destruct_route H :=
  repeat (apply elem_of_cons in H as [->|H]); [..| apply elem_of_nil in H as []].

Lemma path_matches_spec p loc :
  path_matches p loc = true <->
  map ascii_upcase loc = map ascii_upcase p \/
  map ascii_upcase loc = map ascii_upcase p ++ [slash].
Proof. apply bool_decide_eq_true. Qed.

Lemma route_match_unique loc r1 r2 :
  r1 ∈ routes -> r2 ∈ routes ->
  path_matches (path r1) loc = true -> path_matches (path r2) loc = true -> r1 = r2.
Proof.
  intros H1 H2 M1%path_matches_spec M2%path_matches_spec.
  destruct_route H1; destruct_route H2; try reflexivity; exfalso;
    destruct M1 as [M1|M1], M2 as [M2|M2]; rewrite M1 in M2; vm_compute in M2; discriminate.
Qed.

(** C14: no location matches two routes of the table, so the order in which
    vue-router ranks its matchers never changes the route chosen. *)
Theorem routes_unambiguous loc r1 r2 :
  r1 ∈ routes -> r2 ∈ routes ->
  path_matches (path r1) loc = true -> path_matches (path r2) loc = true -> r1 = r2.
Proof. exact (route_match_unique loc r1 r2). Qed.

Lemma resolve_iff BASE_URL loc r :
  resolve (router BASE_URL) loc = Some r <-> r ∈ routes /\ path_matches (path r) loc = true.
Proof.
  unfold resolve, router. cbn [router_routes]. split.
  - intros (Hin & Hm)%find_some. split; [apply list_elem_of_In|]; assumption.
  - intros [Hin Hm]. destruct (find _ routes) as [r'|] eqn:E.
    + apply find_some in E as [Hin' Hm']. f_equal.
      apply (route_match_unique loc); [apply list_elem_of_In, Hin' | exact Hin | exact Hm' | exact Hm].
    + apply list_elem_of_In in Hin. pose proof (find_none _ _ E r Hin). congruence.
Qed.

Lemma path_matches_own r : r ∈ routes -> path_matches (path r) (path r) = true.
Proof. intros H. destruct_route H; reflexivity. Qed.

Lemma route_path_nonempty r : r ∈ routes -> path r <> [].
Proof. intros H. destruct_route H; discriminate. Qed.

Lemma strip_base_app b p : p <> [] -> strip_base (b ++ p) b = p.
Proof.
  intros Hp. unfold strip_base. destruct b as [|c b]; [reflexivity|].
  rewrite take_app_length, decide_True by reflexivity. rewrite drop_app_length.
  destruct p; [congruence | reflexivity].
Qed.

Lemma resolve_strip_base BASE_URL r :
  r ∈ routes ->
  resolve (router BASE_URL)
    (current_location (router_history (router BASE_URL)) (normalize_base BASE_URL ++ path r))
  = Some r.
Proof.
  intros Hr. unfold current_location, router, createWebHistory. cbn [router_history history_base].
  rewrite strip_base_app by (apply route_path_nonempty, Hr).
  apply resolve_iff. split; [exact Hr | apply path_matches_own, Hr].
Qed.

(** C15: deployed under any [BASE_URL] (a path: the hash-history branch
    of [createCurrentLocation] is not modelled), the page whose pathname is
    the normalized base followed by a route's path opens that route. *)
Theorem resolve_under_base BASE_URL r :
  r ∈ routes ->
  resolve (router BASE_URL)
    (current_location (router_history (router BASE_URL)) (normalize_base BASE_URL ++ path r))
  = Some r.
Proof. exact (resolve_strip_base BASE_URL r). Qed.

(** The table has the three configured entries, with distinct names. *)
Lemma routes_table : length routes = 3 /\ NoDup (map name routes) /\ NoDup (map path routes).
Proof. split; [reflexivity|]. split; apply (bool_decide_unpack _); vm_compute; reflexivity. Qed.

Example resolve_about_any_case : resolve (router js["/"]) js["/About/"] = Some (mk_route js["/about"] js["About"] About).
Proof. vm_compute. reflexivity. Qed.

Example resolve_unknown : resolve (router js["/"]) js["/poems"] = None.
Proof. vm_compute. reflexivity. Qed.

Example base_normalized : normalize_base js["mypoems/"] = js["/mypoems"].
Proof. vm_compute. reflexivity. Qed.

(** Witnesses. *)
Lemma routes_unambiguous_witness :
  let r := mk_route js["/books"] js["Books"] Books in
  r ∈ routes /\ path_matches (path r) js["/BOOKS/"] = true /\ r = r.
Proof.
  intros r. assert (Hr : r ∈ routes) by (apply list_elem_of_further, list_elem_of_further, list_elem_of_here).
  split; [exact Hr|]. split; [vm_compute; reflexivity|].
  apply (routes_unambiguous js["/BOOKS/"] r r Hr Hr); vm_compute; reflexivity.
Defined.

Lemma resolve_under_base_witness :
  let r := mk_route js["/about"] js["About"] About in
  r ∈ routes /\
  resolve (router js["mypoems/"])
    (current_location (router_history (router js["mypoems/"])) (normalize_base js["mypoems/"] ++ path r))
  = Some r.
Proof.
  intros r. assert (Hr : r ∈ routes) by (apply list_elem_of_further, list_elem_of_here).
  split; [exact Hr | apply resolve_under_base, Hr].
Defined.

End Router.
