(* ===== verification/Vue.v ===== *)
(** * The Vue runtime that the entry point calls

    [src/main.js] calls three operations of Vue 3: [createApp(App)],
    [app.use(router)] and [app.mount('#app')].  The class [VueRuntime]
    states what the entry point relies on: observers of the runtime (which
    app a host element shows, an app's root component, whether the router
    is installed on it) and a law per operation.  The entry point is
    modelled against the class (Bootstrap.v).

    [VueModel] implements it after Vue 3's [apiCreateApp.ts] (the
    [installedPlugins] check of [use], the [isMounted] check of [mount]) and
    runtime-dom's [mount]: a selector with no element in the document makes
    [mount] warn and return; otherwise the container's content is emptied
    first, then core [mount] warns for a mounted app, or renders the app
    into the container and sets its [__vue_app__].  An element of the
    document records its selector, its [__vue_app__] and the app whose tree
    it holds.  vue-router 4's [install] is the one plugin: it records the
    app and, the first time, starts the initial navigation to the router
    history's location.  That navigation completes later, by
    [complete_navigation] ([finish_navigation]), in the microtasks after
    the job that called [use].  Every state reached by the operations is
    well formed ([wf_state]); a second [use] only warns, a second [mount]
    warns and leaves the host empty. *)

From S2P Require Import Prelude Router.
Import Router.

Module Vue.

(** The plugins passed to [app.use]: the router of router/index.js. *)
Inductive plugin := RouterPlugin.

#[export] Instance plugin_eq_dec : EqDecision plugin.
Proof. solve_decision. Defined.

(** ** The interface *)

Class VueRuntime (V : Type) := {
  createApp : component -> V -> V * nat;
  app_use : nat -> plugin -> V -> V;
  app_mount : nat -> js_string -> V -> V;

  mounted_at : V -> js_string -> option nat;
  host_exists : V -> js_string -> bool;
  app_root : V -> nat -> option component;
  app_has_router : V -> nat -> bool;
  app_is_mounted : V -> nat -> bool;
  app_count : V -> nat;
  nav_pending : V -> bool;
  complete_navigation : V -> V;

  (** [createApp] adds one unmounted app without plugins and leaves the
      document alone. *)
  createApp_spec c v v' id : createApp c v = (v', id) ->
    id = app_count v /\ app_count v' = S (app_count v) /\
    app_root v' id = Some c /\ app_has_router v' id = false /\ app_is_mounted v' id = false /\
    (forall j, j <> id -> app_root v' j = app_root v j) /\
    (forall s, mounted_at v' s = mounted_at v s) /\ (forall s, host_exists v' s = host_exists v s);

  (** [use(router)] installs the router and changes nothing else the entry
      points observe. *)
  use_spec id v : is_Some (app_root v id) ->
    app_has_router (app_use id RouterPlugin v) id = true /\
    (forall j, app_root (app_use id RouterPlugin v) j = app_root v j) /\
    app_is_mounted (app_use id RouterPlugin v) id = app_is_mounted v id /\
    app_count (app_use id RouterPlugin v) = app_count v /\
    (forall s, mounted_at (app_use id RouterPlugin v) s = mounted_at v s) /\
    (forall s, host_exists (app_use id RouterPlugin v) s = host_exists v s);

  (** [mount(s)] of an unmounted app on an existing element shows it there. *)
  mount_spec id s v : is_Some (app_root v id) -> host_exists v s = true -> app_is_mounted v id = false ->
    mounted_at (app_mount id s v) s = Some id /\ app_is_mounted (app_mount id s v) id = true /\
    (forall j, app_root (app_mount id s v) j = app_root v j) /\
    (forall j, app_has_router (app_mount id s v) j = app_has_router v j) /\
    app_count (app_mount id s v) = app_count v /\
    (forall s', host_exists (app_mount id s v) s' = host_exists v s');

  (** [mount(s)] with no element for [s] changes nothing observed. *)
  mount_no_host id s v : host_exists v s = false ->
    (forall s', mounted_at (app_mount id s v) s' = mounted_at v s') /\
    app_count (app_mount id s v) = app_count v /\
    (forall j, app_root (app_mount id s v) j = app_root v j) /\
    (forall j, app_has_router (app_mount id s v) j = app_has_router v j);

  (** a mount only ever changes the element it is given *)
  mount_other id s v s' : s' <> s -> mounted_at (app_mount id s v) s' = mounted_at v s';

  (** the navigation in progress completes, and changes no app and no
      element *)
  navigation_spec v :
    nav_pending (complete_navigation v) = false /\
    (forall s, mounted_at (complete_navigation v) s = mounted_at v s) /\
    (forall s, host_exists (complete_navigation v) s = host_exists v s) /\
    (forall j, app_root (complete_navigation v) j = app_root v j) /\
    (forall j, app_has_router (complete_navigation v) j = app_has_router v j) /\
    (forall j, app_is_mounted (complete_navigation v) j = app_is_mounted v j) /\
    app_count (complete_navigation v) = app_count v
}.

(** ** A model of Vue 3 and vue-router 4 *)

Module VueModel.

Inductive warning :=
  | PluginAlreadyApplied        (* "Plugin has already been applied to target app." *)
  | AppAlreadyMounted           (* "App has already been mounted." *)
  | MountTargetNull (s : js_string) (* "Failed to mount app: mount target selector ... returned null." *)
  | HostHasApp.                 (* "There is already an app instance mounted on the host container." *)

Record app_state := mk_app {
  root : component;
  installed_plugins : list plugin;
  is_mounted : bool;
  container : option js_string
}.

(** An element of the document, by the selector that finds it, with the app
    registered on it ([__vue_app__]) and the app whose rendered tree it
    holds ([None] once its content is cleared). *)
Record element := mk_element { el_selector : js_string; vue_app : option nat; rendered : option nat }.

(** The router singleton of router/index.js, as [install] and the initial
    navigation change it: the options it was created with (its matcher),
    [started], [installedApps], the history's location, the navigation in
    progress, and [currentRoute], [None] while it is [START_LOCATION]. *)
Record router_state := mk_router_state {
  router_opts : router_options;
  started : bool;
  installed_apps : list nat;
  history_location : js_string;
  pending : option js_string;
  current : option (option route_record)
}.

Record state := mk_state {
  apps : list app_state;
  document : list element;
  router_st : router_state;
  warnings : list warning
}.

Definition warn (w : warning) (v : state) : state :=
  mk_state (apps v) (document v) (router_st v) (warnings v ++ [w]).

Definition query_selector (s : js_string) (d : list element) : option element :=
  find (fun e => bool_decide (el_selector e = s)) d.

(** The first element [s] selects, changed by [f]. *)
Fixpoint update_first (s : js_string) (f : element -> element) (d : list element) : list element :=
  match d with
  | [] => []
  | e :: d' => if decide (el_selector e = s) then f e :: d' else e :: update_first s f d'
  end.

(** runtime-dom's [container.textContent = '']. *)
Definition clear_content (s : js_string) (d : list element) : list element :=
  update_first s (fun e => mk_element (el_selector e) (vue_app e) None) d.

(** Core [mount]: [render(vnode, rootContainer)] and
    [rootContainer.__vue_app__ = app]. *)
Definition set_vue_app (s : js_string) (id : nat) (d : list element) : list element :=
  update_first s (fun e => mk_element (el_selector e) (Some id) (Some id)) d.

Definition clear_container (s : js_string) (v : state) : state :=
  mk_state (apps v) (clear_content s (document v)) (router_st v) (warnings v).

Definition vm_createApp (c : component) (v : state) : state * nat :=
  (mk_state (apps v ++ [mk_app c [] false None]) (document v) (router_st v) (warnings v),
   length (apps v)).

(** vue-router's [install(app)]: the first install while the route is
    [START_LOCATION] starts the navigation to the history's location; the
    app joins [installedApps]. *)
Definition router_start (rs : router_state) : router_state :=
  if negb (started rs) && bool_decide (current rs = None)
  then mk_router_state (router_opts rs) true (installed_apps rs) (history_location rs) (Some (history_location rs)) (current rs)
  else rs.

Definition router_install (id : nat) (rs : router_state) : router_state :=
  let rs := router_start rs in
  mk_router_state (router_opts rs) (started rs)
    (if decide (id ∈ installed_apps rs) then installed_apps rs else installed_apps rs ++ [id])
    (history_location rs) (pending rs) (current rs).

Definition vm_use (id : nat) (p : plugin) (v : state) : state :=
  match apps v !! id with
  | None => v
  | Some a =>
      if decide (p ∈ installed_plugins a) then warn PluginAlreadyApplied v
      else
        let a' := mk_app (root a) (installed_plugins a ++ [p]) (is_mounted a) (container a) in
        match p with
        | RouterPlugin =>
            mk_state (<[id := a']> (apps v)) (document v) (router_install id (router_st v)) (warnings v)
        end
  end.

(** runtime-dom's [app.mount(selector)]: [normalizeContainer] (a selector
    that finds nothing warns and returns), then [container.textContent =
    ''], then core [mount], which warns and does nothing more for a mounted
    app, and otherwise renders the app into the container. *)
Definition vm_mount (id : nat) (s : js_string) (v : state) : state :=
  match query_selector s (document v) with
  | None => warn (MountTargetNull s) v
  | Some el =>
      let v := clear_container s v in
      match apps v !! id with
      | None => v
      | Some a =>
          if is_mounted a then warn AppAlreadyMounted v
          else
            let v := match vue_app el with Some _ => warn HostHasApp v | None => v end in
            mk_state (<[id := mk_app (root a) (installed_plugins a) true (Some s)]> (apps v))
              (set_vue_app s id (document v)) (router_st v) (warnings v)
      end
  end.

(** The initial navigation completes ([finalizeNavigation], after the
    promise chain of [push] has run in later microtasks): the pending
    location is resolved by the router's matcher and becomes the current
    route. *)
Definition finish_navigation (v : state) : state :=
  match pending (router_st v) with
  | None => v
  | Some loc =>
      let rs := router_st v in
      mk_state (apps v) (document v)
        (mk_router_state (router_opts rs) (started rs) (installed_apps rs) (history_location rs) None
           (Some (resolve (router_opts rs) loc))) (warnings v)
  end.

(** A navigation is in progress. *)
Definition vm_nav_pending (v : state) : bool := bool_decide (is_Some (pending (router_st v))).

Definition vm_mounted_at (v : state) (s : js_string) : option nat :=
  query_selector s (document v) ≫= vue_app.
Definition vm_host_exists (v : state) (s : js_string) : bool :=
  bool_decide (is_Some (query_selector s (document v))).
Definition vm_app_root (v : state) (id : nat) : option component := root <$> apps v !! id.
Definition vm_app_has_router (v : state) (id : nat) : bool :=
  match apps v !! id with Some a => bool_decide (RouterPlugin ∈ installed_plugins a) | None => false end.
Definition vm_app_is_mounted (v : state) (id : nat) : bool :=
  match apps v !! id with Some a => is_mounted a | None => false end.
(** The app whose rendered tree the element [s] selects holds. *)
Definition vm_rendered_at (v : state) (s : js_string) : option nat :=
  query_selector s (document v) ≫= rendered.

(** ** The model implements the interface *)

(** Changing the first element [s] selects, keeping its selector. *)
Lemma query_update_same s f d el :
  (forall e, el_selector (f e) = el_selector e) ->
  query_selector s d = Some el -> query_selector s (update_first s f d) = Some (f el).
Proof.
  intros Hf. unfold query_selector. induction d as [|e d IH]; simpl; [discriminate|].
  destruct (decide (el_selector e = s)) as [He|He].
  - rewrite bool_decide_eq_true_2 by exact He. intros [= <-]. simpl.
    rewrite bool_decide_eq_true_2 by (rewrite Hf; exact He). reflexivity.
  - rewrite bool_decide_eq_false_2 by exact He. intros H. simpl.
    rewrite bool_decide_eq_false_2 by exact He. exact (IH H).
Qed.

Lemma query_update_none s f d : query_selector s d = None -> update_first s f d = d.
Proof.
  unfold query_selector. induction d as [|e d IH]; simpl; [reflexivity|].
  destruct (decide (el_selector e = s)) as [He|He].
  - rewrite bool_decide_eq_true_2 by exact He. discriminate.
  - rewrite bool_decide_eq_false_2 by exact He. intros H. rewrite (IH H). reflexivity.
Qed.

Lemma query_update_other s s' f d :
  (forall e, el_selector (f e) = el_selector e) ->
  s' <> s -> query_selector s' (update_first s f d) = query_selector s' d.
Proof.
  unfold query_selector. intros Hf Hs. induction d as [|e d IH]; simpl; [reflexivity|].
  destruct (decide (el_selector e = s)) as [He|He]; simpl.
  - rewrite Hf, !bool_decide_eq_false_2 by congruence. reflexivity.
  - case_bool_decide; [reflexivity | exact IH].
Qed.

Lemma query_update_is_Some s s' f d :
  (forall e, el_selector (f e) = el_selector e) ->
  is_Some (query_selector s' (update_first s f d)) <-> is_Some (query_selector s' d).
Proof.
  intros Hf. destruct (decide (s' = s)) as [->|Hs]; [|rewrite query_update_other by assumption; reflexivity].
  destruct (query_selector s d) as [el|] eqn:E.
  - rewrite (query_update_same s f d el Hf E). split; eauto.
  - rewrite query_update_none by exact E. rewrite E. reflexivity.
Qed.

(** Clearing a container keeps the app registered on every element. *)
Lemma query_clear_vue_app s s' d :
  (query_selector s' (clear_content s d) ≫= vue_app) = (query_selector s' d ≫= vue_app).
Proof.
  unfold clear_content. destruct (decide (s' = s)) as [->|Hs].
  - destruct (query_selector s d) as [el|] eqn:E.
    + rewrite (query_update_same s _ d el) by first [intros; reflexivity | exact E]. reflexivity.
    + rewrite query_update_none by exact E. rewrite E. reflexivity.
  - rewrite (query_update_other s s' _ d) by first [intros; reflexivity | exact Hs]. reflexivity.
Qed.

Lemma vm_createApp_spec c v v' id : vm_createApp c v = (v', id) ->
  id = length (apps v) /\ length (apps v') = S (length (apps v)) /\
  vm_app_root v' id = Some c /\ vm_app_has_router v' id = false /\ vm_app_is_mounted v' id = false /\
  (forall j, j <> id -> vm_app_root v' j = vm_app_root v j) /\
  (forall s, vm_mounted_at v' s = vm_mounted_at v s) /\ (forall s, vm_host_exists v' s = vm_host_exists v s).
Proof.
  intros [= <- <-]. unfold vm_app_root, vm_app_has_router, vm_app_is_mounted; simpl.
  rewrite lookup_snoc_eq, length_app. simpl. split; [reflexivity|]. split; [lia|].
  split; [reflexivity|]. split; [reflexivity|]. split; [reflexivity|].
  split; [intros j Hj; rewrite lookup_snoc_ne by exact Hj; reflexivity|].
  split; reflexivity.
Qed.

Lemma vm_use_spec id v : is_Some (vm_app_root v id) ->
  vm_app_has_router (vm_use id RouterPlugin v) id = true /\
  (forall j, vm_app_root (vm_use id RouterPlugin v) j = vm_app_root v j) /\
  vm_app_is_mounted (vm_use id RouterPlugin v) id = vm_app_is_mounted v id /\
  length (apps (vm_use id RouterPlugin v)) = length (apps v) /\
  (forall s, vm_mounted_at (vm_use id RouterPlugin v) s = vm_mounted_at v s) /\
  (forall s, vm_host_exists (vm_use id RouterPlugin v) s = vm_host_exists v s).
Proof.
  unfold vm_app_root. intros [c Hc]. apply fmap_Some in Hc as (a & Ha & _).
  unfold vm_use, vm_app_has_router, vm_app_is_mounted. rewrite Ha.
  destruct (decide (RouterPlugin ∈ installed_plugins a)) as [Hp|Hp].
  - simpl. rewrite Ha. rewrite bool_decide_eq_true_2 by exact Hp. auto 10.
  - cbn [apps document]. rewrite (lookup_insert_some_eq _ _ _ _ Ha), length_insert.
    rewrite bool_decide_eq_true_2 by (apply elem_of_app; right; apply list_elem_of_here).
    split; [reflexivity|]. split; [|auto 10].
    intros j. destruct (decide (j = id)) as [->|Hj].
    + rewrite (lookup_insert_some_eq _ _ _ _ Ha), Ha. reflexivity.
    + rewrite lookup_insert_some_ne by congruence. reflexivity.
Qed.

Lemma vm_mount_spec id s v : is_Some (vm_app_root v id) -> vm_host_exists v s = true ->
  vm_app_is_mounted v id = false ->
  vm_mounted_at (vm_mount id s v) s = Some id /\ vm_app_is_mounted (vm_mount id s v) id = true /\
  (forall j, vm_app_root (vm_mount id s v) j = vm_app_root v j) /\
  (forall j, vm_app_has_router (vm_mount id s v) j = vm_app_has_router v j) /\
  length (apps (vm_mount id s v)) = length (apps v) /\
  (forall s', vm_host_exists (vm_mount id s v) s' = vm_host_exists v s').
Proof.
  unfold vm_app_root, vm_host_exists, vm_app_is_mounted, vm_app_has_router, vm_mounted_at.
  intros [c Hc] [el Hq]%bool_decide_eq_true Hm. apply fmap_Some in Hc as (a & Ha & _).
  rewrite Ha in Hm. unfold vm_mount. rewrite Hq. cbn [clear_container apps]. rewrite Ha, Hm.
  assert (Hq' : query_selector s (clear_content s (document v)) = Some (mk_element (el_selector el) (vue_app el) None))
    by (apply (query_update_same s (fun e => mk_element (el_selector e) (vue_app e) None)); [intros; reflexivity | exact Hq]).
  assert (Hins : forall w, apps w = apps v -> document w = clear_content s (document v) ->
    let v2 := mk_state (<[id := mk_app (root a) (installed_plugins a) true (Some s)]> (apps w))
                (set_vue_app s id (document w)) (router_st w) (warnings w) in
    (query_selector s (document v2) ≫= vue_app) = Some id /\
    match apps v2 !! id with Some a0 => is_mounted a0 | None => false end = true /\
    (forall j, root <$> apps v2 !! j = root <$> apps v !! j) /\
    (forall j, match apps v2 !! j with Some a0 => bool_decide (RouterPlugin ∈ installed_plugins a0) | None => false end
             = match apps v !! j with Some a0 => bool_decide (RouterPlugin ∈ installed_plugins a0) | None => false end) /\
    length (apps v2) = length (apps v) /\
    (forall s', bool_decide (is_Some (query_selector s' (document v2))) = bool_decide (is_Some (query_selector s' (document v))))).
  { intros w Hw Hd v2. subst v2. cbn [apps document]. rewrite Hw, Hd. unfold set_vue_app.
    rewrite (query_update_same s _ _ _) by first [intros; reflexivity | exact Hq'].
    rewrite (lookup_insert_some_eq _ _ _ _ Ha), length_insert.
    split; [reflexivity|]. split; [reflexivity|].
    split; [|split; [|split; [reflexivity|]]].
    - intros j. destruct (decide (j = id)) as [->|Hj].
      + rewrite (lookup_insert_some_eq _ _ _ _ Ha), Ha. reflexivity.
      + rewrite lookup_insert_some_ne by congruence. reflexivity.
    - intros j. destruct (decide (j = id)) as [->|Hj].
      + rewrite (lookup_insert_some_eq _ _ _ _ Ha), Ha. reflexivity.
      + rewrite lookup_insert_some_ne by congruence. reflexivity.
    - intros s'. apply bool_decide_ext. unfold clear_content.
      rewrite (query_update_is_Some s s') by (intros; reflexivity).
      rewrite (query_update_is_Some s s') by (intros; reflexivity).
      reflexivity. }
  destruct (vue_app el); apply Hins; reflexivity.
Qed.

Lemma vm_mount_no_host id s v : vm_host_exists v s = false ->
  (forall s', vm_mounted_at (vm_mount id s v) s' = vm_mounted_at v s') /\
  length (apps (vm_mount id s v)) = length (apps v) /\
  (forall j, vm_app_root (vm_mount id s v) j = vm_app_root v j) /\
  (forall j, vm_app_has_router (vm_mount id s v) j = vm_app_has_router v j).
Proof.
  unfold vm_host_exists. intros H. unfold vm_mount.
  destruct (query_selector s (document v)) eqn:E; [rewrite bool_decide_eq_false in H; exfalso; eauto|].
  auto.
Qed.

Lemma vm_mount_other id s v s' : s' <> s -> vm_mounted_at (vm_mount id s v) s' = vm_mounted_at v s'.
Proof.
  intros Hs. unfold vm_mount, vm_mounted_at.
  destruct (query_selector s (document v)) as [el|]; [|reflexivity].
  pose proof (query_clear_vue_app s s' (document v)) as Hc.
  cbn [clear_container apps document]. destruct (apps v !! id) as [a|]; [|exact Hc].
  destruct (is_mounted a); [exact Hc|].
  destruct (vue_app el); cbn [document warn]; unfold set_vue_app;
    rewrite (query_update_other s s' _ _) by first [intros; reflexivity | exact Hs]; exact Hc.
Qed.

Lemma vm_finish_navigation_spec v :
  vm_nav_pending (finish_navigation v) = false /\
  (forall s, vm_mounted_at (finish_navigation v) s = vm_mounted_at v s) /\
  (forall s, vm_host_exists (finish_navigation v) s = vm_host_exists v s) /\
  (forall j, vm_app_root (finish_navigation v) j = vm_app_root v j) /\
  (forall j, vm_app_has_router (finish_navigation v) j = vm_app_has_router v j) /\
  (forall j, vm_app_is_mounted (finish_navigation v) j = vm_app_is_mounted v j) /\
  length (apps (finish_navigation v)) = length (apps v).
Proof.
  unfold finish_navigation, vm_nav_pending.
  destruct (pending (router_st v)) as [l|] eqn:Hp.
  - repeat split.
  - repeat split. apply bool_decide_eq_false_2. rewrite Hp. intros [? ?]. discriminate.
Qed.

#[export] Instance vue_model : VueRuntime state := {|
  createApp := vm_createApp;
  app_use := vm_use;
  app_mount := vm_mount;
  mounted_at := vm_mounted_at;
  host_exists := vm_host_exists;
  app_root := vm_app_root;
  app_has_router := vm_app_has_router;
  app_is_mounted := vm_app_is_mounted;
  app_count v := length (apps v);
  nav_pending := vm_nav_pending;
  complete_navigation := finish_navigation;
  createApp_spec := vm_createApp_spec;
  use_spec := vm_use_spec;
  mount_spec := vm_mount_spec;
  mount_no_host := vm_mount_no_host;
  mount_other := vm_mount_other;
  navigation_spec := vm_finish_navigation_spec
|}.

(** ** The runtime's guards *)

(** C28: installing the router a second time on the same app only warns:
    the app's plugins and the router singleton stay as the first [use] left
    them, so the initial navigation is never started twice. *)
Theorem vm_use_twice id v :
  is_Some (vm_app_root v id) ->
  vm_use id RouterPlugin (vm_use id RouterPlugin v) = warn PluginAlreadyApplied (vm_use id RouterPlugin v).
Proof.
  unfold vm_app_root. intros [c Hc]. apply fmap_Some in Hc as (a & Ha & _).
  remember (vm_use id RouterPlugin v) as v1 eqn:E1.
  assert (Hl : exists a1, apps v1 !! id = Some a1 /\ RouterPlugin ∈ installed_plugins a1).
  { subst v1. unfold vm_use. rewrite Ha. destruct (decide (RouterPlugin ∈ installed_plugins a)) as [Hp|Hp].
    - exists a. split; [exact Ha | exact Hp].
    - eexists. split; [apply (lookup_insert_some_eq _ _ _ _ Ha)|].
      apply elem_of_app; right; apply list_elem_of_here. }
  destruct Hl as (a1 & Ha1 & Hp1). unfold vm_use. rewrite Ha1, decide_True by exact Hp1. reflexivity.
Qed.

(** The state a first mount builds: the app mounted in [s], the container
    cleared, then holding the app. *)
Lemma vm_mount_fresh id s v a el :
  query_selector s (document v) = Some el -> apps v !! id = Some a -> is_mounted a = false ->
  exists ws, vm_mount id s v =
    mk_state (<[id := mk_app (root a) (installed_plugins a) true (Some s)]> (apps v))
      (set_vue_app s id (clear_content s (document v))) (router_st v) ws.
Proof.
  intros Hq Ha Hm. unfold vm_mount. rewrite Hq. cbn [clear_container apps document router_st warnings].
  rewrite Ha, Hm. destruct (vue_app el); eexists; reflexivity.
Qed.

Lemma query_clear_same s d el :
  query_selector s d = Some el ->
  query_selector s (clear_content s d) = Some (mk_element (el_selector el) (vue_app el) None).
Proof. apply (query_update_same s (fun e => mk_element (el_selector e) (vue_app e) None)). intros; reflexivity. Qed.

Lemma query_set_clear s id d el :
  query_selector s d = Some el ->
  query_selector s (set_vue_app s id (clear_content s d)) = Some (mk_element (el_selector el) (Some id) (Some id)).
Proof.
  intros Hq. unfold set_vue_app.
  rewrite (query_update_same s (fun e => mk_element (el_selector e) (Some id) (Some id)) _
             (mk_element (el_selector el) (vue_app el) None)); [reflexivity | intros; reflexivity|].
  apply query_clear_same, Hq.
Qed.

(** C29: runtime-dom empties the container before core [mount] checks
    [isMounted].  After a first mount the host holds the rendered app; a
    second mount of the same app only warns "already mounted", and leaves
    the app mounted and registered on the host, but the host's content is
    gone. *)
Theorem vm_mount_twice id s v :
  is_Some (vm_app_root v id) -> vm_host_exists v s = true -> vm_app_is_mounted v id = false ->
  let v1 := vm_mount id s v in
  vm_rendered_at v1 s = Some id /\
  vm_mount id s v1 = warn AppAlreadyMounted (clear_container s v1) /\
  vm_rendered_at (vm_mount id s v1) s = None /\
  vm_mounted_at (vm_mount id s v1) s = Some id /\ vm_app_is_mounted (vm_mount id s v1) id = true.
Proof.
  intros [c Hc] Hh Hm. cbv zeta.
  unfold vm_app_root in Hc. unfold vm_host_exists in Hh. unfold vm_app_is_mounted in Hm |- *.
  apply bool_decide_eq_true in Hh as [el Hq].
  apply fmap_Some in Hc as (a & Ha & _). rewrite Ha in Hm.
  destruct (vm_mount_fresh id s v a el Hq Ha Hm) as [ws E]. rewrite E.
  pose proof (query_set_clear s id (document v) el Hq) as Hq1.
  assert (Hm2 : vm_mount id s (mk_state (<[id := mk_app (root a) (installed_plugins a) true (Some s)]> (apps v))
                  (set_vue_app s id (clear_content s (document v))) (router_st v) ws) =
                warn AppAlreadyMounted (clear_container s (mk_state (<[id := mk_app (root a) (installed_plugins a) true (Some s)]> (apps v))
                  (set_vue_app s id (clear_content s (document v))) (router_st v) ws))).
  { unfold vm_mount. cbn [document]. rewrite Hq1. cbn [clear_container apps].
    rewrite (lookup_insert_some_eq _ _ _ _ Ha). reflexivity. }
  unfold vm_rendered_at, vm_mounted_at. rewrite Hm2. cbn [warn clear_container apps document].
  rewrite (query_clear_same _ _ _ Hq1).
  rewrite (lookup_insert_some_eq _ _ _ _ Ha). cbn [document]. rewrite Hq1. repeat split; reflexivity.
Qed.

(** ** Well-formed runtime states *)

(** The operations the entry points and the router perform on the runtime. *)
Inductive vue_op :=
  | OpCreateApp (c : component)
  | OpUse (id : nat) (p : plugin)
  | OpMount (id : nat) (s : js_string)
  | OpNavigate.

Definition run_vue_op (v : state) (o : vue_op) : state :=
  match o with
  | OpCreateApp c => fst (vm_createApp c v)
  | OpUse id p => vm_use id p v
  | OpMount id s => vm_mount id s v
  | OpNavigate => finish_navigation v
  end.

(** A page before any script runs: the document's elements, no app, and the
    router singleton at [START_LOCATION] with its history's location. *)
Definition initial_state (opts : router_options) (doc : list js_string) (loc : js_string) : state :=
  mk_state [] (map (fun s => mk_element s None None) doc) (mk_router_state opts false [] loc None None) [].

Definition plugins_of (as_ : list app_state) (id : nat) : list plugin :=
  default [] (installed_plugins <$> as_ !! id).

Definition app_wf (a : app_state) : Prop :=
  NoDup (installed_plugins a) /\ (is_mounted a = true <-> is_Some (container a)).

(** An element shows only a mounted app whose container it is. *)
Definition element_wf (as_ : list app_state) (e : element) : Prop :=
  forall id, vue_app e = Some id ->
  exists a, as_ !! id = Some a /\ is_mounted a = true /\ container a = Some (el_selector e).

(** [installedApps] lists, once each, the apps the router is installed on;
    the navigation starts with the first install and only goes to the
    history's location. *)
Definition router_wf (as_ : list app_state) (rs : router_state) : Prop :=
  NoDup (installed_apps rs) /\
  (forall id, id ∈ installed_apps rs <-> RouterPlugin ∈ plugins_of as_ id) /\
  (forall l, pending rs = Some l -> l = history_location rs) /\
  (started rs = false -> pending rs = None /\ current rs = None /\ installed_apps rs = []) /\
  (started rs = true -> installed_apps rs <> []).

Definition wf_state (v : state) : Prop :=
  Forall app_wf (apps v) /\ Forall (element_wf (apps v)) (document v) /\ router_wf (apps v) (router_st v).

Lemma plugins_of_snoc as_ a j :
  installed_plugins a = [] -> plugins_of (as_ ++ [a]) j = plugins_of as_ j.
Proof.
  intros Ha. unfold plugins_of. destruct (decide (j < length as_)) as [Hj|Hj].
  - rewrite lookup_app_l by exact Hj. reflexivity.
  - rewrite lookup_app_r, (lookup_ge_None_2 as_ j) by lia.
    destruct (j - length as_) as [|k]; simpl; [exact Ha | reflexivity].
Qed.

Lemma plugins_of_insert as_ id a a' j :
  as_ !! id = Some a ->
  plugins_of (<[id := a']> as_) j = if decide (j = id) then installed_plugins a' else plugins_of as_ j.
Proof.
  intros Ha. unfold plugins_of. case_decide as Hj.
  - subst. rewrite (lookup_insert_some_eq _ _ _ _ Ha). reflexivity.
  - rewrite lookup_insert_some_ne by congruence. reflexivity.
Qed.

Lemma element_wf_snoc as_ a e : element_wf as_ e -> element_wf (as_ ++ [a]) e.
Proof.
  intros H id Hid. destruct (H id Hid) as (a0 & Ha0 & Hm & Hc).
  exists a0. split; [apply lookup_app_l_Some, Ha0 | auto].
Qed.

(** Replacing an app keeps an element well formed when the app was not
    mounted, or stays mounted in the same container. *)
Lemma element_wf_insert as_ id a a' e :
  as_ !! id = Some a ->
  (is_mounted a = true -> is_mounted a' = true /\ container a' = container a) ->
  element_wf as_ e -> element_wf (<[id := a']> as_) e.
Proof.
  intros Ha Hkeep H j Hj. destruct (H j Hj) as (a0 & Ha0 & Hm & Hc).
  destruct (decide (j = id)) as [->|Hne].
  - rewrite Ha in Ha0. injection Ha0 as <-. destruct (Hkeep Hm) as [Hm' Hc'].
    exists a'. rewrite (lookup_insert_some_eq _ _ _ _ Ha). rewrite Hc'. auto.
  - exists a0. rewrite lookup_insert_some_ne by congruence. auto.
Qed.

Lemma Forall_update_first (P : element -> Prop) s f d :
  Forall P d -> (forall e, el_selector e = s -> P e -> P (f e)) -> Forall P (update_first s f d).
Proof.
  intros Hd Hf. induction Hd as [|e d He Hd IH]; simpl; [constructor|].
  case_decide as E; constructor; auto.
Qed.

Lemma NoDup_snoc {A} (l : list A) x : x ∉ l -> NoDup l -> NoDup (l ++ [x]).
Proof.
  intros Hx Hl. apply NoDup_app. split; [exact Hl|]. split; [|apply NoDup_singleton].
  intros y Hy ->%list_elem_of_singleton. exact (Hx Hy).
Qed.

Lemma vm_createApp_wf c v : wf_state v -> wf_state (fst (vm_createApp c v)).
Proof.
  intros (Ha & He & Hn & Hr & Hp & Hs & Hs'). unfold vm_createApp, wf_state. cbn [fst apps document router_st].
  split; [|split].
  - apply Forall_app. split; [exact Ha|]. apply Forall_singleton. split; [constructor|].
    simpl. split; [discriminate | intros [? ?]; discriminate].
  - eapply Forall_impl; [exact He|]. intros e. apply element_wf_snoc.
  - split; [exact Hn|]. split; [|tauto]. intros j. rewrite plugins_of_snoc by reflexivity. apply Hr.
Qed.

(** Starting the navigation keeps the router well formed and leaves it
    started. *)
Lemma router_start_wf as_ rs :
  router_wf as_ rs ->
  installed_apps (router_start rs) = installed_apps rs /\ started (router_start rs) = true /\
  (forall l, pending (router_start rs) = Some l -> l = history_location (router_start rs)).
Proof.
  intros (_ & _ & Hp & Hs & _). unfold router_start.
  destruct (started rs) eqn:Est; simpl; [auto|].
  destruct (Hs eq_refl) as (_ & -> & _). simpl. split; [reflexivity|]. split; [reflexivity|].
  intros l Hl. simpl in Hl. congruence.
Qed.

(** vue-router's [install] keeps the router well formed once the app it is
    installed on has the router among its plugins. *)
Lemma router_install_wf as_ as' id rs :
  router_wf as_ rs ->
  (forall j, j <> id -> RouterPlugin ∈ plugins_of as' j <-> RouterPlugin ∈ plugins_of as_ j) ->
  RouterPlugin ∈ plugins_of as' id ->
  router_wf as' (router_install id rs).
Proof.
  intros Hwf Hother Hid. destruct (router_start_wf as_ rs Hwf) as (Hi & Hst & Hp).
  destruct Hwf as (Hn & Hr & _). unfold router_install. rewrite Hst, Hi.
  unfold router_wf. cbn [installed_apps started pending history_location current].
  split; [case_decide; [exact Hn | apply NoDup_snoc; assumption]|].
  split; [|split; [exact Hp | split; [discriminate | intros _]]].
  - intros j. destruct (decide (j = id)) as [->|Hj].
    + split; [intros _; exact Hid | intros _; case_decide; set_solver].
    + rewrite Hother, <- Hr by exact Hj. case_decide; set_solver.
  - destruct (decide (id ∈ installed_apps rs)) as [E|E]; [intros E0; rewrite E0 in E; set_solver | intros E0; apply app_eq_nil in E0 as [_ E0]; discriminate].
Qed.

Lemma vm_use_wf id p v : wf_state v -> wf_state (vm_use id p v).
Proof.
  intros Hwf. unfold vm_use. destruct (apps v !! id) as [a|] eqn:Ha; [|exact Hwf].
  case_decide as Hp; [exact Hwf|]. destruct p.
  destruct Hwf as (HA & HE & HR). unfold wf_state. cbn [apps document router_st].
  destruct (Forall_lookup_1 _ _ _ _ HA Ha) as [Hnd Hm].
  split; [|split].
  - apply Forall_insert; [exact HA|]. split; [apply NoDup_snoc; assumption | exact Hm].
  - eapply Forall_impl; [exact HE|]. intros e. apply (element_wf_insert _ _ a). exact Ha. auto.
  - apply (router_install_wf (apps v)); [exact HR | |].
    + intros j Hj. rewrite (plugins_of_insert _ _ a) by exact Ha. rewrite decide_False by exact Hj. reflexivity.
    + rewrite (plugins_of_insert _ _ a), decide_True by (exact Ha || reflexivity). set_solver.
Qed.

Lemma router_wf_plugins_ext as_ as' rs :
  (forall j, plugins_of as' j = plugins_of as_ j) -> router_wf as_ rs -> router_wf as' rs.
Proof. intros Heq (Hn & Hr & Hrest). split; [exact Hn|]. split; [|exact Hrest]. intros j. rewrite Heq. apply Hr. Qed.

(** The state [mount] builds when it mounts an unmounted app on an element
    that exists, whether or not that element already showed an app. *)
Lemma mount_update_wf v id a s ws :
  wf_state v -> apps v !! id = Some a -> is_mounted a = false ->
  wf_state (mk_state (<[id := mk_app (root a) (installed_plugins a) true (Some s)]> (apps v))
              (set_vue_app s id (document v)) (router_st v) ws).
Proof.
  intros (HA & HE & HR) Ha Hm. destruct (Forall_lookup_1 _ _ _ _ HA Ha) as [Hnd _].
  unfold wf_state. cbn [apps document router_st]. split; [|split].
  - apply Forall_insert; [exact HA|]. split; [exact Hnd|]. split; [intros _; eexists; reflexivity | reflexivity].
  - apply Forall_update_first.
    + eapply Forall_impl; [exact HE|]. intros e. apply (element_wf_insert _ _ a); [exact Ha|].
      rewrite Hm. discriminate.
    + intros e <- _ j [= <-]. eexists. rewrite (lookup_insert_some_eq _ _ _ _ Ha). auto.
  - apply (router_wf_plugins_ext (apps v)); [|exact HR].
    intros j. rewrite (plugins_of_insert _ _ a) by exact Ha. case_decide; [|reflexivity].
    subst. unfold plugins_of. rewrite Ha. reflexivity.
Qed.

(** Emptying a container changes no app and no [__vue_app__]. *)
Lemma clear_container_wf s v : wf_state v -> wf_state (clear_container s v).
Proof.
  intros (HA & HE & HR). split; [exact HA|]. split; [|exact HR].
  apply Forall_update_first; [exact HE|]. intros e _ He. exact He.
Qed.

Lemma vm_mount_wf id s v : wf_state v -> wf_state (vm_mount id s v).
Proof.
  intros Hwf. unfold vm_mount. destruct (query_selector s (document v)) as [el|]; [|exact Hwf].
  pose proof (clear_container_wf s v Hwf) as Hc. cbv zeta.
  destruct (apps (clear_container s v) !! id) as [a|] eqn:Ha; [|exact Hc].
  destruct (is_mounted a) eqn:Hm; [exact Hc|].
  destruct (vue_app el); [apply (mount_update_wf (warn HostHasApp (clear_container s v))) | apply mount_update_wf]; assumption.
Qed.

Lemma finish_navigation_wf v : wf_state v -> wf_state (finish_navigation v).
Proof.
  intros Hwf. unfold finish_navigation. destruct (pending (router_st v)) as [l|] eqn:Hp; [|exact Hwf].
  destruct Hwf as (HA & HE & Hn & Hr & Hpl & Hs & Hs'). split; [exact HA|]. split; [exact HE|].
  unfold router_wf. cbn [installed_apps started pending history_location current router_st apps].
  split; [exact Hn|]. split; [exact Hr|]. split; [discriminate|]. split; [|exact Hs'].
  intros Hst. destruct (Hs Hst) as [Hpn _]. congruence.
Qed.

Lemma run_vue_op_wf v o : wf_state v -> wf_state (run_vue_op v o).
Proof.
  destruct o; simpl.
  - apply vm_createApp_wf.
  - apply vm_use_wf.
  - apply vm_mount_wf.
  - apply finish_navigation_wf.
Qed.

Lemma run_vue_ops_wf v ops : wf_state v -> wf_state (foldl run_vue_op v ops).
Proof. revert v. induction ops as [|o ops IH]; intros v Hv; [exact Hv | apply IH, run_vue_op_wf, Hv]. Qed.

Lemma initial_state_wf opts doc loc : wf_state (initial_state opts doc loc).
Proof.
  split; [constructor|]. split.
  - apply Forall_fmap, Forall_forall. intros s _ id [=].
  - split; [constructor|]. split; [|split; [discriminate | split; [auto | discriminate]]].
    intros j. unfold plugins_of. simpl. set_solver.
Qed.

(** C16: every state the runtime reaches from a page, by any sequence of
    [createApp], [use], [mount] and navigations, is well formed: no app has a
    plugin twice; an app is mounted exactly when it has a container; an
    element shows only a mounted app whose container it is; [installedApps]
    lists once each exactly the apps the router is installed on; and the
    navigation starts with the first install and goes to the history's
    location. *)
Theorem vue_ops_wf opts doc loc ops : wf_state (foldl run_vue_op (initial_state opts doc loc) ops).
Proof. apply run_vue_ops_wf, initial_state_wf. Qed.

(** Witnesses: one app in a document with [#app]. *)
Definition example_state : state :=
  mk_state [mk_app DesktopApp [] false None] [mk_element js["#app"] None None]
    (mk_router_state (router js["/"]) false [] js["/"] None None) [].

Lemma vm_use_twice_witness :
  is_Some (vm_app_root example_state 0) /\
  vm_use 0 RouterPlugin (vm_use 0 RouterPlugin example_state)
  = warn PluginAlreadyApplied (vm_use 0 RouterPlugin example_state).
Proof.
  assert (H : is_Some (vm_app_root example_state 0)) by (eexists; reflexivity).
  split; [exact H | apply (vm_use_twice 0 example_state H)].
Defined.

Lemma vm_mount_twice_witness :
  is_Some (vm_app_root example_state 0) /\ vm_host_exists example_state js["#app"] = true /\
  vm_app_is_mounted example_state 0 = false /\
  vm_rendered_at (vm_mount 0 js["#app"] (vm_mount 0 js["#app"] example_state)) js["#app"] = None.
Proof.
  assert (H1 : is_Some (vm_app_root example_state 0)) by (eexists; reflexivity).
  assert (H2 : vm_host_exists example_state js["#app"] = true) by (vm_compute; reflexivity).
  assert (H3 : vm_app_is_mounted example_state 0 = false) by reflexivity.
  split; [exact H1|]. split; [exact H2|]. split; [exact H3|].
  apply (vm_mount_twice 0 js["#app"] example_state H1 H2 H3).
Defined.

End VueModel.

End Vue.
