(* ===== verification/Promise.v ===== *)
(** * Promises and the microtask queue (ECMA-262 27.2, HTML 8.1.7)

    [src/main.js] lines 10-19 create a promise with [import()] and attach a
    fulfilment handler with [.then].  This file models the promise
    operations that code runs: a store of promises with their reactions
    and [[PromiseIsHandled]] flag, PerformPromiseThen, FulfillPromise and
    RejectPromise with TriggerPromiseReactions, the job queue, the reaction
    job's treatment of an empty handler, and the host's rejection tracker
    with its report at the end of a microtask checkpoint.  It is generic in
    the values [V] and in the handler functions [H]; running a handler is
    left to the client (Bootstrap.v), which knows what the handler's code
    does.  Resolving with a thenable is not modelled: the values the
    program resolves with are module namespaces and [undefined]. *)

From S2P Require Import Prelude.

Module Promise.

Section Promises.
Context {V H : Type}.

Inductive promise_state := Pending | Fulfilled (v : V) | Rejected (r : V).

Inductive reaction_type := FulfillReaction | RejectReaction.

(** A PromiseReaction: the derived promise it settles, its type and its
    handler ([None] for an absent handler). *)
Record reaction := mk_reaction {
  capability : nat;
  rtype : reaction_type;
  handler : option H
}.

Record promise := mk_promise {
  pstate : promise_state;
  fulfill_reactions : list reaction;
  reject_reactions : list reaction;
  is_handled : bool
}.

Record job := mk_job { job_reaction : reaction; job_argument : V }.

(** The promises by id, the job queue (front first), and the host's
    "about-to-be-notified rejected promises" list. *)
Record store := mk_store {
  promises : list promise;
  jobs : list job;
  about_to_be_notified : list nat
}.

Inductive completion := Normal (v : V) | Throw (v : V).

Definition empty_store : store := mk_store [] [] [].

Definition set_promise (p : nat) (pr : promise) (st : store) : store :=
  mk_store (<[p := pr]> (promises st)) (jobs st) (about_to_be_notified st).

(** NewPromiseCapability(%Promise%): a fresh pending promise. *)
Definition new_promise (st : store) : store * nat :=
  (mk_store (promises st ++ [mk_promise Pending [] [] false]) (jobs st) (about_to_be_notified st),
   length (promises st)).

Definition enqueue (js : list job) (st : store) : store :=
  mk_store (promises st) (jobs st ++ js) (about_to_be_notified st).

(** TriggerPromiseReactions. *)
Definition reaction_jobs (rs : list reaction) (arg : V) : list job :=
  map (fun r => mk_job r arg) rs.

(** HostPromiseRejectionTracker(p, "reject") and (p, "handle"). *)
Definition track_reject (p : nat) (st : store) : store :=
  mk_store (promises st) (jobs st) (about_to_be_notified st ++ [p]).
Definition track_handle (p : nat) (st : store) : store :=
  mk_store (promises st) (jobs st) (filter (fun q => q <> p) (about_to_be_notified st)).

(** FulfillPromise; a settled promise is left alone (the resolving
    functions' [[AlreadyResolved]] guard). *)
Definition fulfill_promise (p : nat) (v : V) (st : store) : store :=
  match promises st !! p with
  | Some (mk_promise Pending fr _ h) =>
      enqueue (reaction_jobs fr v) (set_promise p (mk_promise (Fulfilled v) [] [] h) st)
  | _ => st
  end.

(** RejectPromise: the tracker hears of a rejection nobody handles. *)
Definition reject_promise (p : nat) (r : V) (st : store) : store :=
  match promises st !! p with
  | Some (mk_promise Pending _ rr h) =>
      let st := enqueue (reaction_jobs rr r) (set_promise p (mk_promise (Rejected r) [] [] h) st) in
      if h then st else track_reject p st
  | _ => st
  end.

(** PerformPromiseThen(p, onFulfilled, onRejected, capability [d]). *)
Definition perform_then (p : nat) (onFulfilled onRejected : option H) (d : nat) (st : store) : store :=
  let fr := mk_reaction d FulfillReaction onFulfilled in
  let rr := mk_reaction d RejectReaction onRejected in
  match promises st !! p with
  | Some (mk_promise Pending fs rs _) =>
      set_promise p (mk_promise Pending (fs ++ [fr]) (rs ++ [rr]) true) st
  | Some (mk_promise (Fulfilled v) fs rs _) =>
      enqueue [mk_job fr v] (set_promise p (mk_promise (Fulfilled v) fs rs true) st)
  | Some (mk_promise (Rejected r) fs rs h) =>
      let st := if h then st else track_handle p st in
      enqueue [mk_job rr r] (set_promise p (mk_promise (Rejected r) fs rs true) st)
  | None => st
  end.

(** [p.then(onFulfilled)]: a derived promise and its reactions. *)
Definition promise_then (p : nat) (onFulfilled : option H) (st : store) : store * nat :=
  let '(st, d) := new_promise st in
  (perform_then p onFulfilled None d st, d).

(** The first job of the queue. *)
Definition dequeue (st : store) : option (job * store) :=
  match jobs st with
  | j :: js => Some (j, mk_store (promises st) js (about_to_be_notified st))
  | [] => None
  end.

(** NewPromiseReactionJob with an empty handler: the argument passes
    through as a value or as a throw. *)
Definition passthrough (r : reaction) (arg : V) : completion :=
  match rtype r with FulfillReaction => Normal arg | RejectReaction => Throw arg end.

(** The end of the job: the derived promise settles with the handler's
    completion. *)
Definition settle (d : nat) (c : completion) (st : store) : store :=
  match c with Normal v => fulfill_promise d v st | Throw e => reject_promise d e st end.

(** "Notify about rejected promises": the listed promises still unhandled
    are reported (an [unhandledrejection] event each); the list is
    emptied. *)
Definition unhandled (st : store) (p : nat) : bool :=
  match promises st !! p with Some pr => negb (is_handled pr) | None => false end.

Definition notify_rejected (st : store) : store * list nat :=
  (mk_store (promises st) (jobs st) [],
   filter (fun p => unhandled st p = true) (about_to_be_notified st)).

End Promises.

Arguments promise_state : clear implicits.
Arguments reaction : clear implicits.
Arguments promise : clear implicits.
Arguments job : clear implicits.
Arguments store : clear implicits.
Arguments completion : clear implicits.

(** ** Settled promises stay settled *)

Section Theory.
Context {V H : Type}.
Abbreviation store := (store V H).

Definition pstate_of (st : store) (p : nat) : option (promise_state V) :=
  pstate <$> promises st !! p.

Definition is_settled (s : promise_state V) : Prop := match s with Pending => False | _ => True end.

(** The operations the store goes through. *)
Inductive op :=
  | OpNew
  | OpThen (p : nat) (onFulfilled : option H)
  | OpFulfill (p : nat) (v : V)
  | OpReject (p : nat) (r : V)
  | OpSettle (d : nat) (c : completion V)
  | OpDequeue
  | OpNotify.

Definition run_op (o : op) (st : store) : store :=
  match o with
  | OpNew => fst (new_promise st)
  | OpThen p f => fst (promise_then p f st)
  | OpFulfill p v => fulfill_promise p v st
  | OpReject p r => reject_promise p r st
  | OpSettle d c => settle d c st
  | OpDequeue => match dequeue st with Some (_, st') => st' | None => st end
  | OpNotify => fst (notify_rejected st)
  end.

Lemma pstate_of_set st q pr p :
  pstate_of (set_promise q pr st) p =
  if decide (p = q) then (fun _ => pstate pr) <$> promises st !! q else pstate_of st p.
Proof.
  unfold pstate_of, set_promise; simpl. case_decide as Hpq.
  - subst. destruct (promises st !! q) eqn:E; simpl.
    + rewrite (lookup_insert_some_eq _ _ _ _ E). reflexivity.
    + rewrite list_insert_ge; [rewrite E; reflexivity|]. apply lookup_ge_None in E. exact E.
  - rewrite list_lookup_insert_ne by congruence. reflexivity.
Qed.

Lemma pstate_of_enqueue st js p : pstate_of (enqueue js st) p = pstate_of st p.
Proof. reflexivity. Qed.

Lemma pstate_of_track st q p :
  pstate_of (track_reject q st) p = pstate_of st p /\ pstate_of (track_handle q st) p = pstate_of st p.
Proof. split; reflexivity. Qed.

Lemma pstate_of_new st p s : pstate_of st p = Some s -> pstate_of (fst (new_promise st)) p = Some s.
Proof.
  unfold pstate_of; simpl. intros (pr & Hp & Hs)%fmap_Some.
  rewrite (lookup_app_l_Some _ _ _ _ Hp). simpl. rewrite Hs. reflexivity.
Qed.

(** A step that rewrites promise [q] only while it is pending, or with the
    same state, keeps every settled promise as it was. *)
Lemma pstate_of_set_stable st q pr p s :
  (forall s0, pstate_of st q = Some s0 -> is_settled s0 -> pstate pr = s0) ->
  pstate_of st p = Some s -> is_settled s -> pstate_of (set_promise q pr st) p = Some s.
Proof.
  intros Hq Hp Hs. rewrite pstate_of_set. case_decide as E; [subst|exact Hp].
  unfold pstate_of in *. destruct (promises st !! q); simpl in *; [|discriminate].
  f_equal. injection Hp as <-. apply Hq; [reflexivity | exact Hs].
Qed.

Ltac stable_step :=
  repeat first
    [ rewrite pstate_of_enqueue
    | rewrite (proj1 (pstate_of_track _ _ _))
    | rewrite (proj2 (pstate_of_track _ _ _)) ].

(** C21: a promise that is fulfilled or rejected keeps its state and value
    through every operation of the store. *)
Theorem settled_stable (o : op) st p s :
  pstate_of st p = Some s -> is_settled s -> pstate_of (run_op o st) p = Some s.
Proof.
  intros Hp Hs. destruct o as [|q f|q v|q r|d c| |]; unfold run_op.
  - apply pstate_of_new, Hp.
  - unfold promise_then. destruct (new_promise st) as [st1 d] eqn:En. cbn [fst]. unfold perform_then.
    assert (Hp1 : pstate_of st1 p = Some s)
      by (replace st1 with (fst (new_promise st)) by (rewrite En; reflexivity); apply pstate_of_new, Hp).
    destruct (promises st1 !! q) as [[[|v|r] fs rs h]|] eqn:Eq; [..|exact Hp1];
      stable_step; [| |destruct h; stable_step];
      apply pstate_of_set_stable; try assumption;
      intros s0 Hs0 _; unfold pstate_of in Hs0; cbn [promises track_handle] in Hs0;
      rewrite Eq in Hs0; injection Hs0 as <-; reflexivity.
  - unfold fulfill_promise. destruct (promises st !! q) as [[[|v'|r] fr rr h]|] eqn:Eq; try exact Hp.
    stable_step. apply pstate_of_set_stable; try assumption.
    intros s0 Hs0 Hset. unfold pstate_of in Hs0. rewrite Eq in Hs0. injection Hs0 as <-. contradiction.
  - unfold reject_promise. destruct (promises st !! q) as [[[|v'|r'] fr rr h]|] eqn:Eq; try exact Hp.
    destruct h; stable_step; apply pstate_of_set_stable; try assumption;
      intros s0 Hs0 Hset; unfold pstate_of in Hs0; rewrite Eq in Hs0; injection Hs0 as <-; contradiction.
  - destruct c as [v|e]; unfold settle.
    + unfold fulfill_promise. destruct (promises st !! d) as [[[|v'|r] fr rr h]|] eqn:Eq; try exact Hp.
      stable_step. apply pstate_of_set_stable; try assumption.
      intros s0 Hs0 Hset. unfold pstate_of in Hs0. rewrite Eq in Hs0. injection Hs0 as <-. contradiction.
    + unfold reject_promise. destruct (promises st !! d) as [[[|v'|r'] fr rr h]|] eqn:Eq; try exact Hp.
      destruct h; stable_step; apply pstate_of_set_stable; try assumption;
        intros s0 Hs0 Hset; unfold pstate_of in Hs0; rewrite Eq in Hs0; injection Hs0 as <-; contradiction.
  - unfold dequeue. destruct (jobs st); exact Hp.
  - exact Hp.
Qed.

(** ** Well-formed stores *)

(** A promise of a store of [n] promises: its reactions settle promises of
    the store and each list holds reactions of its own type; a promise with
    reactions is handled (PerformPromiseThen sets [[PromiseIsHandled]]);
    a settled promise has no reaction left (TriggerPromiseReactions runs
    each reaction once and the lists are cleared). *)
Definition promise_wf (n : nat) (pr : promise V H) : Prop :=
  Forall (fun r => capability r < n /\ rtype r = FulfillReaction) (fulfill_reactions pr) /\
  Forall (fun r => capability r < n /\ rtype r = RejectReaction) (reject_reactions pr) /\
  (reject_reactions pr <> [] -> is_handled pr = true) /\
  (pstate pr <> Pending -> fulfill_reactions pr = [] /\ reject_reactions pr = []).

(** Queued jobs and tracked rejections name promises of the store. *)
Definition store_wf (st : store) : Prop :=
  Forall (promise_wf (length (promises st))) (promises st) /\
  Forall (fun j => capability (job_reaction j) < length (promises st)) (jobs st) /\
  Forall (fun p => p < length (promises st)) (about_to_be_notified st).

Lemma promise_wf_mono n n' pr : n <= n' -> promise_wf n pr -> promise_wf n' pr.
Proof.
  intros Hn (F & R & Hh & Hs). split; [|split]; [| |split; assumption].
  - eapply Forall_impl; [exact F|]. intros r [? ?]. split; [lia | assumption].
  - eapply Forall_impl; [exact R|]. intros r [? ?]. split; [lia | assumption].
Qed.

Lemma promise_wf_settled n s h : promise_wf n (mk_promise s [] [] h).
Proof. split; [constructor|]. split; [constructor|]. split; [intros H0; contradiction H0; reflexivity | auto]. Qed.

Lemma store_wf_set st p pr0 pr :
  promises st !! p = Some pr0 -> store_wf st -> promise_wf (length (promises st)) pr ->
  store_wf (set_promise p pr st).
Proof.
  intros Hp (HP & HJ & HA) Hpr. unfold store_wf, set_promise. cbn [promises jobs about_to_be_notified].
  rewrite length_insert. split; [apply Forall_insert; assumption|]. split; assumption.
Qed.

Lemma store_wf_enqueue st js :
  store_wf st -> Forall (fun j => capability (job_reaction j) < length (promises st)) js ->
  store_wf (enqueue js st).
Proof. intros (HP & HJ & HA) Hjs. split; [exact HP|]. split; [apply Forall_app; split|]; assumption. Qed.

Lemma reaction_jobs_bound n t (rs : list (reaction H)) (v : V) :
  Forall (fun r => capability r < n /\ rtype r = t) rs ->
  Forall (fun j => capability (job_reaction j) < n) (reaction_jobs rs v).
Proof. intros Hr. apply Forall_map. eapply Forall_impl; [exact Hr|]. intros r [Hc _]. exact Hc. Qed.

Lemma store_wf_lookup st p pr :
  store_wf st -> promises st !! p = Some pr -> promise_wf (length (promises st)) pr /\ p < length (promises st).
Proof.
  intros (HP & _) Hp. split; [exact (Forall_lookup_1 _ _ _ _ HP Hp) | apply lookup_lt_Some in Hp; exact Hp].
Qed.

Lemma new_promise_wf st : store_wf st -> store_wf (fst (new_promise st)).
Proof.
  intros (HP & HJ & HA). unfold store_wf. cbn [fst new_promise promises jobs about_to_be_notified].
  rewrite length_app. simpl. split; [|split].
  - apply Forall_app. split; [|constructor; [apply promise_wf_settled | constructor]].
    eapply Forall_impl; [exact HP|]. intros pr. apply promise_wf_mono. lia.
  - eapply Forall_impl; [exact HJ|]. simpl. intros. lia.
  - eapply Forall_impl; [exact HA|]. simpl. intros. lia.
Qed.

Lemma fulfill_promise_wf p v st : store_wf st -> store_wf (fulfill_promise p v st).
Proof.
  intros Hwf. unfold fulfill_promise.
  destruct (promises st !! p) as [[[|v'|r'] fr rr h]|] eqn:Hp; try exact Hwf.
  destruct (store_wf_lookup _ _ _ Hwf Hp) as [(F & _) _].
  apply store_wf_enqueue; [apply (store_wf_set _ _ _ _ Hp Hwf), promise_wf_settled|].
  unfold set_promise. simpl. rewrite length_insert. apply (reaction_jobs_bound _ _ _ _ F).
Qed.

Lemma reject_promise_wf p r st : store_wf st -> store_wf (reject_promise p r st).
Proof.
  intros Hwf. unfold reject_promise.
  destruct (promises st !! p) as [[[|v'|r'] fr rr h]|] eqn:Hp; try exact Hwf.
  destruct (store_wf_lookup _ _ _ Hwf Hp) as [(_ & R & _) Hlt].
  assert (Hst : store_wf (enqueue (reaction_jobs rr r) (set_promise p (mk_promise (Rejected r) [] [] h) st))).
  { apply store_wf_enqueue; [apply (store_wf_set _ _ _ _ Hp Hwf), promise_wf_settled|].
    unfold set_promise. simpl. rewrite length_insert. apply (reaction_jobs_bound _ _ _ _ R). }
  destruct h; [exact Hst|]. destruct Hst as (HP & HJ & HA). split; [exact HP|]. split; [exact HJ|].
  apply Forall_app. split; [exact HA|]. constructor; [|constructor]. simpl. rewrite length_insert. exact Hlt.
Qed.

Lemma settle_wf d c st : store_wf st -> store_wf (settle d c st).
Proof. destruct c; [apply fulfill_promise_wf | apply reject_promise_wf]. Qed.

Lemma perform_then_wf p f1 f2 d st :
  store_wf st -> d < length (promises st) -> store_wf (perform_then p f1 f2 d st).
Proof.
  intros Hwf Hd. unfold perform_then.
  destruct (promises st !! p) as [[[|v|r] fs rs h]|] eqn:Hp; [..|exact Hwf];
    destruct (store_wf_lookup _ _ _ Hwf Hp) as [(F & R & Hh & Hs) _];
    cbn [pstate fulfill_reactions reject_reactions is_handled] in F, R, Hh, Hs.
  - apply (store_wf_set _ _ _ _ Hp Hwf). split; [|split]; [| |split; [intros _; reflexivity | simpl; congruence]].
    + apply Forall_app. split; [exact F | repeat constructor; simpl; lia].
    + apply Forall_app. split; [exact R | repeat constructor; simpl; lia].
  - destruct (Hs ltac:(discriminate)) as [-> ->]. simpl.
    apply store_wf_enqueue; [apply (store_wf_set _ _ _ _ Hp Hwf), promise_wf_settled|].
    unfold set_promise. simpl. rewrite length_insert. repeat constructor. simpl. exact Hd.
  - destruct (Hs ltac:(discriminate)) as [-> ->]. simpl.
    assert (Ht : store_wf (if h then st else track_handle p st) /\
                 promises (if h then st else track_handle p st) = promises st).
    { destruct h; [split; [exact Hwf | reflexivity]|]. split; [|reflexivity].
      destruct Hwf as (HP & HJ & HA). split; [exact HP|]. split; [exact HJ|].
      rewrite Forall_forall in HA |- *. intros q Hq. apply list_elem_of_filter in Hq as [_ Hq]. exact (HA q Hq). }
    destruct Ht as [Ht Hps].
    apply store_wf_enqueue; [apply (store_wf_set _ p (mk_promise (Rejected r) [] [] h)); [rewrite Hps; exact Hp | exact Ht |]|].
    + rewrite Hps. apply promise_wf_settled.
    + unfold set_promise. simpl. rewrite length_insert, Hps. repeat constructor. simpl. exact Hd.
Qed.

Lemma promise_then_wf p f st : store_wf st -> store_wf (fst (promise_then p f st)).
Proof.
  intros Hwf. unfold promise_then. simpl. apply perform_then_wf; [apply (new_promise_wf _ Hwf)|].
  simpl. rewrite length_app. simpl. lia.
Qed.

Lemma dequeue_wf st j st' : dequeue st = Some (j, st') -> store_wf st -> store_wf st'.
Proof.
  unfold dequeue. destruct (jobs st) as [|j0 js] eqn:Hj; [discriminate|]. intros [= <- <-] (HP & HJ & HA).
  rewrite Hj in HJ. apply Forall_cons in HJ as [_ HJ]. split; [exact HP|]. split; assumption.
Qed.

Lemma notify_rejected_wf st : store_wf st -> store_wf (fst (notify_rejected st)).
Proof. intros (HP & HJ & _). split; [exact HP|]. split; [exact HJ | constructor]. Qed.

Lemma run_op_wf (o : op) st : store_wf st -> store_wf (run_op o st).
Proof.
  destruct o; simpl.
  - apply new_promise_wf.
  - apply promise_then_wf.
  - apply fulfill_promise_wf.
  - apply reject_promise_wf.
  - apply settle_wf.
  - destruct (dequeue st) as [[j st']|] eqn:E; [apply dequeue_wf with j, E | auto].
  - apply notify_rejected_wf.
Qed.

(** C22: every operation of the store keeps it well formed: a settled
    promise has no reaction left, so each reaction is triggered once;
    reactions are of their list's type and settle promises of the store; a
    promise with reactions is handled; queued jobs and tracked rejections
    name promises of the store. *)
Theorem store_wf_preserved (o : op) st : store_wf st -> store_wf (run_op o st).
Proof. exact (run_op_wf o st). Qed.

End Theory.

(** A witness: a fulfilled promise survives a later attempt to reject it. *)
Lemma settled_stable_witness :
  let st : store nat unit := mk_store [mk_promise (Fulfilled 5) [] [] true] [] [] in
  pstate_of st 0 = Some (Fulfilled 5) /\ is_settled (Fulfilled (V := nat) 5) /\
  pstate_of (run_op (OpReject 0 9) st) 0 = Some (Fulfilled 5).
Proof.
  intros st. assert (H1 : pstate_of st 0 = Some (Fulfilled 5)) by reflexivity.
  assert (H2 : is_settled (Fulfilled (V := nat) 5)) by exact I.
  split; [exact H1|]. split; [exact H2 | apply (settled_stable (OpReject 0 9) st 0 _ H1 H2)].
Defined.

Lemma store_wf_preserved_witness :
  let st : store nat unit := mk_store [mk_promise Pending [mk_reaction 1 FulfillReaction None]
                                         [mk_reaction 1 RejectReaction None] true;
                                       mk_promise Pending [] [] false] [] [] in
  store_wf st /\ store_wf (run_op (OpReject 0 9) st).
Proof.
  intros st. assert (H : store_wf st).
  { change st with (run_op (V := nat) (H := unit) (OpThen 0 None) (run_op OpNew empty_store)).
    apply run_op_wf, run_op_wf. split; [|split]; constructor. }
  split; [exact H | apply (store_wf_preserved (OpReject 0 9) st H)].
Defined.

End Promise.
