(* ===== verification/Bootstrap.v ===== *)
(** * The bootstrap sequencer of src/main.js (lines 9-19)

    [src/main.js] chooses a root view from [isMobile], starts
    [import('@/mobile/app.vue')] or [import('@/desktop/app.vue')], and
    registers [module => { createApp(module.default); app.use(router);
    app.mount('#app') }] with [.then].  The world holds the Vue runtime
    (any implementation of [VueRuntime]), the promise store, the module
    loads in flight and the trace of what the program did.  [main_js] is
    the synchronous evaluation of the module; [step] is what may happen
    afterwards: the loader fulfils or rejects the import, a microtask runs a
    promise job, the router's initial navigation completes, or the
    microtask checkpoint reports unhandled rejections.
    The theorems enumerate the reachable worlds exactly, and derive the
    ordering, the single mount, the failure path and the route the page
    opens from that enumeration. *)

From S2P Require Import Prelude Regex Device Router Vue Promise.
Import Regex Device Router Vue Promise.

Module Bootstrap.

(** The values the program's promises carry: [undefined], a module
    namespace by its default export, and a load error. *)
Inductive value := VUndefined | VModule (default : component) | VError (e : nat).

(** The one handler function of the program: the arrow function of
    src/main.js lines 14-19. *)
Inductive callback := MainThen.

Inductive event :=
  | EvClassify (mobile : bool)
  | EvImport (specifier : js_string)
  | EvLoaded (specifier : js_string)
  | EvLoadFailed (specifier : js_string)
  | EvCreateApp (root : component)
  | EvUse
  | EvMount
  | EvNavigated
  | EvUnhandled (p : nat).

Definition mobile_app_specifier : js_string := js["@/mobile/app.vue"].
Definition desktop_app_specifier : js_string := js["@/desktop/app.vue"].
Definition app_host : js_string := js["#app"].

(** Lines 10-12: the specifier chosen from [isMobile]. *)
Definition appImport_specifier (mobile : bool) : js_string :=
  if mobile then mobile_app_specifier else desktop_app_specifier.

(** The bundle's modules: the default export of each root view. *)
Definition module_default (spec : js_string) : option component :=
  if decide (spec = mobile_app_specifier) then Some MobileApp
  else if decide (spec = desktop_app_specifier) then Some DesktopApp
  else None.

Section Sequencer.
Context `{CM : CaseMapping} {Vst : Type} `{VR : VueRuntime Vst}.

Record world := mk_world {
  userAgent : js_value;
  vue : Vst;
  ps : Promise.store value callback;
  loads : list (nat * js_string);
  trace : list event
}.

Definition init_world (ua : js_value) (v : Vst) : world :=
  mk_world ua v empty_store [] [].

Definition log (evs : list event) (w : world) : world :=
  mk_world (userAgent w) (vue w) (ps w) (loads w) (trace w ++ evs).

Definition with_ps (st : Promise.store value callback) (w : world) : world :=
  mk_world (userAgent w) (vue w) st (loads w) (trace w).

(** [import(spec)]: a pending promise and a load in flight. *)
Definition dynamic_import (spec : js_string) (w : world) : world * nat :=
  let '(st, p) := new_promise (ps w) in
  (mk_world (userAgent w) (vue w) st (loads w ++ [(p, spec)]) (trace w ++ [EvImport spec]), p).

(** The evaluation of src/main.js: lines 5-7, 10-12 and 14. *)
Definition main_js (w : world) : world :=
  let mobile := isMobile (userAgent w) in
  let w := log [EvClassify mobile] w in
  let '(w, appImport) := dynamic_import (appImport_specifier mobile) w in
  let '(st, _) := promise_then appImport (Some MainThen) (ps w) in
  with_ps st w.

(** Lines 14-19, the body of the handler: the Vue runtime after it, its
    completion and what it did.  [module.default] of a value that is not a
    module object throws. *)
Definition main_then (arg : value) (v : Vst) : Vst * completion value * list event :=
  match arg with
  | VModule App =>
      let created := createApp App v in
      let app := snd created in
      let v := app_use app RouterPlugin (fst created) in
      let v := app_mount app app_host v in
      (v, Normal VUndefined, [EvCreateApp App; EvUse; EvMount])
  | _ => (v, Throw (VError 0), [])
  end.

(** A promise reaction job: the handler, or the pass-through of an empty
    handler, then the derived promise settles. *)
Definition run_job (j : job value callback) (w : world) : world :=
  let r := job_reaction j in
  match handler r with
  | None => with_ps (settle (capability r) (passthrough r (job_argument j)) (ps w)) w
  | Some MainThen =>
      let '(v, c, evs) := main_then (job_argument j) (vue w) in
      mk_world (userAgent w) v (settle (capability r) c (ps w)) (loads w) (trace w ++ evs)
  end.

Definition drop_load (p : nat) (spec : js_string) (w : world) : list (nat * js_string) :=
  filter (fun x => x <> (p, spec)) (loads w).

Definition load_ok (p : nat) (spec : js_string) (c : component) (w : world) : world :=
  mk_world (userAgent w) (vue w) (fulfill_promise p (VModule c) (ps w)) (drop_load p spec w)
    (trace w ++ [EvLoaded spec]).

Definition load_fail (p : nat) (spec : js_string) (e : nat) (w : world) : world :=
  mk_world (userAgent w) (vue w) (reject_promise p (VError e) (ps w)) (drop_load p spec w)
    (trace w ++ [EvLoadFailed spec]).

Definition checkpoint (w : world) : world :=
  let '(st, reported) := notify_rejected (ps w) in
  mk_world (userAgent w) (vue w) st (loads w) (trace w ++ map EvUnhandled reported).

(** The router's initial navigation completes.  [install] started it with
    [push(routerHistory.location)], whose promise chain runs in microtasks
    after the job that called [use]; its end, [finalizeNavigation], sets
    the current route. *)
Definition navigate (w : world) : world :=
  mk_world (userAgent w) (complete_navigation (vue w)) (ps w) (loads w) (trace w ++ [EvNavigated]).

Inductive step : world -> world -> Prop :=
  | StepLoadOk w p spec c :
      (p, spec) ∈ loads w -> module_default spec = Some c -> step w (load_ok p spec c w)
  | StepLoadFail w p spec e :
      (p, spec) ∈ loads w -> step w (load_fail p spec e w)
  | StepJob w j st :
      dequeue (ps w) = Some (j, st) -> step w (run_job j (with_ps st w))
  | StepNotify w :
      jobs (ps w) = [] -> about_to_be_notified (ps w) <> [] -> step w (checkpoint w)
  | StepNavigate w :
      nav_pending (vue w) = true -> step w (navigate w).

End Sequencer.

(** ** The reachable worlds *)

Section Run.
Context `{CM : CaseMapping} {Vst : Type} `{VR : VueRuntime Vst}.
Variable ua : js_value.
Variable v0 : Vst.

Definition root_of (mobile : bool) : component := if mobile then MobileApp else DesktopApp.

Definition start : world := main_js (init_world ua v0).

(** The next job, run. *)
Definition run_next (w : world) : world :=
  match dequeue (ps w) with Some (j, st) => run_job j (with_ps st w) | None => w end.

Definition w_started (m : bool) : world :=
  mk_world ua v0
    (mk_store [mk_promise Pending [mk_reaction 1 FulfillReaction (Some MainThen)]
                 [mk_reaction 1 RejectReaction None] true;
               mk_promise Pending [] [] false] [] [])
    [(0, appImport_specifier m)] [EvClassify m; EvImport (appImport_specifier m)].

Definition w_loaded (m : bool) : world := load_ok 0 (appImport_specifier m) (root_of m) (w_started m).
Definition w_mounted (m : bool) : world := run_next (w_loaded m).
Definition w_navigated (m : bool) : world := navigate (w_mounted m).
Definition w_failed (m : bool) (e : nat) : world := load_fail 0 (appImport_specifier m) e (w_started m).
Definition w_rejected (m : bool) (e : nat) : world := run_next (w_failed m e).
Definition w_reported (m : bool) (e : nat) : world := checkpoint (w_rejected m e).

(** The world a successful run ends in: after the navigation, if the
    handler's [use] started one. *)
Definition w_final (m : bool) : world :=
  if nav_pending (vue (w_mounted m)) then w_navigated m else w_mounted m.

Definition reachable_world (m : bool) (w : world) : Prop :=
  w = w_started m \/ w = w_loaded m \/ w = w_mounted m \/ w = w_final m \/
  exists e, w = w_failed m e \/ w = w_rejected m e \/ w = w_reported m e.

Lemma start_eq : start = w_started (isMobile ua).
Proof. reflexivity. Qed.

End Run.

Section Enumeration.
Context `{CM : CaseMapping} {Vst : Type} `{VR : VueRuntime Vst}.
Variable ua : js_value.
Variable v0 : Vst.
(** The router is idle when src/main.js starts: evaluating router/index.js
    creates it, and only [install] starts a navigation. *)
Hypothesis Hidle : nav_pending v0 = false.

Abbreviation w_started := (w_started ua v0).
Abbreviation w_loaded := (w_loaded ua v0).
Abbreviation w_mounted := (w_mounted ua v0).
Abbreviation w_navigated := (w_navigated ua v0).
Abbreviation w_final := (w_final ua v0).
Abbreviation w_failed := (w_failed ua v0).
Abbreviation w_rejected := (w_rejected ua v0).
Abbreviation w_reported := (w_reported ua v0).

Ltac inv_step Hs :=
  inversion Hs as [w' p spec c Hin Hc | w' p spec e' Hin | w' j st Hd | w' Hj Ha | w' Hn]; subst.

(** What the store, the loads and the runtime of each world are. *)
Lemma loads_after m e :
  loads (w_loaded m) = [] /\ loads (w_mounted m) = [] /\ loads (w_failed m e) = [] /\
  loads (w_rejected m e) = [] /\ loads (w_reported m e) = [].
Proof. destruct m; repeat split; reflexivity. Qed.

Lemma queues_of m e :
  jobs (ps (w_started m)) = [] /\ about_to_be_notified (ps (w_started m)) = [] /\
  jobs (ps (w_mounted m)) = [] /\ about_to_be_notified (ps (w_mounted m)) = [] /\
  jobs (ps (w_rejected m e)) = [] /\ about_to_be_notified (ps (w_rejected m e)) = [1] /\
  jobs (ps (w_reported m e)) = [] /\ about_to_be_notified (ps (w_reported m e)) = [] /\
  jobs (ps (w_loaded m)) <> [] /\ jobs (ps (w_failed m e)) <> [].
Proof. destruct m; repeat split; try reflexivity; discriminate. Qed.

Lemma vue_before_mount m e :
  vue (w_started m) = v0 /\ vue (w_loaded m) = v0 /\ vue (w_failed m e) = v0 /\
  vue (w_rejected m e) = v0 /\ vue (w_reported m e) = v0.
Proof. destruct m; repeat split; reflexivity. Qed.

Lemma dequeue_empty (w : @world Vst) : jobs (ps w) = [] -> dequeue (ps w) = None.
Proof. unfold dequeue. intros ->. reflexivity. Qed.

(** A world with no load in flight, no job, nothing to report and no
    navigation in progress is final. *)
Lemma quiet_terminal (w : @world Vst) :
  loads w = [] -> jobs (ps w) = [] -> about_to_be_notified (ps w) = [] -> nav_pending (vue w) = false ->
  terminal step w.
Proof.
  intros Hl0 Hj0 Ha0 Hn0 y Hs. inv_step Hs.
  - rewrite Hl0 in Hin. apply elem_of_nil in Hin as [].
  - rewrite Hl0 in Hin. apply elem_of_nil in Hin as [].
  - rewrite dequeue_empty in Hd; [discriminate | exact Hj0].
  - contradiction.
  - congruence.
Qed.

Lemma step_started m w :
  step (w_started m) w -> w = w_loaded m \/ exists e, w = w_failed m e.
Proof.
  intros Hs. inv_step Hs.
  - apply list_elem_of_singleton in Hin. injection Hin as -> ->. left.
    assert (c = root_of m) as -> by (destruct m; vm_compute in Hc; injection Hc as <-; reflexivity). reflexivity.
  - apply list_elem_of_singleton in Hin. injection Hin as -> ->. right. exists e'. reflexivity.
  - rewrite dequeue_empty in Hd; [discriminate | reflexivity].
  - contradiction Ha; reflexivity.
  - rewrite (proj1 (vue_before_mount m 0)), Hidle in Hn. discriminate.
Qed.

Lemma step_loaded m w : step (w_loaded m) w -> w = w_mounted m.
Proof.
  intros Hs. inv_step Hs.
  - rewrite (proj1 (loads_after m 0)) in Hin. apply elem_of_nil in Hin as [].
  - rewrite (proj1 (loads_after m 0)) in Hin. apply elem_of_nil in Hin as [].
  - unfold w_mounted, run_next. rewrite Hd. reflexivity.
  - destruct (queues_of m 0) as (_ & _ & _ & _ & _ & _ & _ & _ & Hl & _). contradiction.
  - rewrite (proj1 (proj2 (vue_before_mount m 0))), Hidle in Hn. discriminate.
Qed.

(** After the mount the only thing left to happen is the navigation. *)
Lemma step_mounted m w :
  step (w_mounted m) w -> w = w_navigated m /\ nav_pending (vue (w_mounted m)) = true.
Proof.
  intros Hs. inv_step Hs.
  - rewrite (proj1 (proj2 (loads_after m 0))) in Hin. apply elem_of_nil in Hin as [].
  - rewrite (proj1 (proj2 (loads_after m 0))) in Hin. apply elem_of_nil in Hin as [].
  - rewrite dequeue_empty in Hd; [discriminate | apply (queues_of m 0)].
  - contradiction Ha; apply (queues_of m 0).
  - split; [reflexivity | exact Hn].
Qed.

Lemma step_failed m e w : step (w_failed m e) w -> w = w_rejected m e.
Proof.
  intros Hs. inv_step Hs.
  - rewrite (proj1 (proj2 (proj2 (loads_after m e)))) in Hin. apply elem_of_nil in Hin as [].
  - rewrite (proj1 (proj2 (proj2 (loads_after m e)))) in Hin. apply elem_of_nil in Hin as [].
  - unfold w_rejected, run_next. rewrite Hd. reflexivity.
  - destruct (queues_of m e) as (_ & _ & _ & _ & _ & _ & _ & _ & _ & Hl). contradiction.
  - rewrite (proj1 (proj2 (proj2 (vue_before_mount m e)))), Hidle in Hn. discriminate.
Qed.

Lemma step_rejected m e w : step (w_rejected m e) w -> w = w_reported m e.
Proof.
  intros Hs. inv_step Hs.
  - rewrite (proj1 (proj2 (proj2 (proj2 (loads_after m e))))) in Hin. apply elem_of_nil in Hin as [].
  - rewrite (proj1 (proj2 (proj2 (proj2 (loads_after m e))))) in Hin. apply elem_of_nil in Hin as [].
  - rewrite dequeue_empty in Hd; [discriminate | apply (queues_of m e)].
  - reflexivity.
  - rewrite (proj1 (proj2 (proj2 (proj2 (vue_before_mount m e))))), Hidle in Hn. discriminate.
Qed.

(** The two final worlds: nothing can happen any more. *)
Lemma final_terminal m : terminal step (w_final m).
Proof.
  destruct (queues_of m 0) as (_ & _ & Hj & Ha & _).
  unfold w_final. destruct (nav_pending (vue (w_mounted m))) eqn:En;
    (apply quiet_terminal; [apply (loads_after m 0) | exact Hj | exact Ha |]); [|exact En].
  apply (navigation_spec (vue (w_mounted m))).
Qed.

Lemma reported_terminal m e : terminal step (w_reported m e).
Proof.
  apply quiet_terminal; [apply (loads_after m e) | apply (queues_of m e) | apply (queues_of m e) |].
  rewrite (proj2 (proj2 (proj2 (proj2 (vue_before_mount m e))))). exact Hidle.
Qed.

Lemma step_run_next (w : @world Vst) : jobs (ps w) <> [] -> step w (run_next w).
Proof.
  intros Hj. unfold run_next, dequeue. destruct (jobs (ps w)) as [|j js] eqn:E; [congruence|].
  apply StepJob. unfold dequeue. rewrite E. reflexivity.
Qed.

Lemma module_default_root m : module_default (appImport_specifier m) = Some (root_of m).
Proof. destruct m; reflexivity. Qed.

Lemma star_started_loaded m : star step (w_started m) (w_loaded m).
Proof. apply star_one, StepLoadOk; [apply list_elem_of_here | apply module_default_root]. Qed.

Lemma star_started_mounted m : star step (w_started m) (w_mounted m).
Proof.
  eapply star_trans; [apply star_started_loaded|].
  apply star_one, step_run_next, (queues_of m 0).
Qed.

Lemma star_mounted_final m : star step (w_mounted m) (w_final m).
Proof.
  unfold w_final. destruct (nav_pending (vue (w_mounted m))) eqn:En; [|apply star_refl].
  apply star_one, StepNavigate, En.
Qed.

Lemma star_started_final m : star step (w_started m) (w_final m).
Proof. eapply star_trans; [apply star_started_mounted | apply star_mounted_final]. Qed.

Lemma star_started_reported m e : star step (w_started m) (w_reported m e).
Proof.
  apply (star_step _ _ (w_failed m e)); [apply StepLoadFail, list_elem_of_here|].
  apply (star_step _ _ (w_rejected m e)); [apply step_run_next, (queues_of m e)|].
  apply star_one, StepNotify; [apply (queues_of m e) | rewrite (proj1 (proj2 (proj2 (proj2 (proj2 (proj2 (queues_of m e))))))); discriminate].
Qed.

Lemma reachable_iff w :
  star step (start ua v0) w <-> reachable_world ua v0 (isMobile ua) w.
Proof.
  rewrite start_eq. generalize (isMobile ua) as m. intros m. split.
  - apply star_closed; [|left; reflexivity].
    intros x y Hx Hs. unfold reachable_world in *.
    destruct Hx as [->|[->|[->|[->|(e & [->|[->| ->] ] )] ] ] ].
    + destruct (step_started m y Hs) as [->|[e ->]]; eauto 10.
    + apply step_loaded in Hs as ->. eauto.
    + apply step_mounted in Hs as [-> En]. do 3 right. left. unfold w_final. rewrite En. reflexivity.
    + destruct (final_terminal m y Hs).
    + apply step_failed in Hs as ->. eauto 10.
    + apply step_rejected in Hs as ->. eauto 10.
    + destruct (reported_terminal m e y Hs).
  - intros [->|[->|[->|[->|(e & [->|[->| ->] ] )] ] ] ].
    + apply star_refl.
    + apply star_started_loaded.
    + apply star_started_mounted.
    + apply star_started_final.
    + apply star_one, StepLoadFail, list_elem_of_here.
    + apply (star_step _ _ (w_failed m e)); [apply StepLoadFail, list_elem_of_here|].
      apply star_one, step_run_next, (queues_of m e).
    + apply star_started_reported.
Qed.

(** C1: the worlds reachable from the evaluation of src/main.js are exactly
    these: the import pending; loaded, then mounted, then (once the
    navigation the handler started completes) final; or failed, then the
    derived promise rejected, then reported. *)
Theorem reachable_exactly w :
  star step (start ua v0) w <-> reachable_world ua v0 (isMobile ua) w.
Proof. apply reachable_iff. Qed.

End Enumeration.

(** ** What the program does *)

Definition success_trace (m : bool) : list event :=
  [EvClassify m; EvImport (appImport_specifier m); EvLoaded (appImport_specifier m);
   EvCreateApp (root_of m); EvUse; EvMount; EvNavigated].

Definition failure_trace (m : bool) : list event :=
  [EvClassify m; EvImport (appImport_specifier m); EvLoadFailed (appImport_specifier m); EvUnhandled 1].

Section Properties.
Context `{CM : CaseMapping} {Vst : Type} `{VR : VueRuntime Vst}.
Variable ua : js_value.
Variable v0 : Vst.
Hypothesis Hidle : nav_pending v0 = false.

Abbreviation m := (isMobile ua).

Lemma vue_mounted m' :
  vue (w_mounted ua v0 m') =
  let created := createApp (root_of m') v0 in
  app_mount (snd created) app_host (app_use (snd created) RouterPlugin (fst created)).
Proof. destruct m'; reflexivity. Qed.

Lemma vue_final m' :
  vue (w_final ua v0 m') =
  if nav_pending (vue (w_mounted ua v0 m')) then complete_navigation (vue (w_mounted ua v0 m'))
  else vue (w_mounted ua v0 m').
Proof. unfold w_final. destruct (nav_pending (vue (w_mounted ua v0 m'))); reflexivity. Qed.

Lemma ps_final m' : ps (w_final ua v0 m') = ps (w_mounted ua v0 m').
Proof. unfold w_final. destruct (nav_pending (vue (w_mounted ua v0 m'))); reflexivity. Qed.

Lemma mounted_import_state m' :
  pstate_of (ps (w_mounted ua v0 m')) 0 = Some (Fulfilled (VModule (root_of m'))).
Proof. destruct m'; reflexivity. Qed.

Lemma traces_of m' e :
  trace (w_started ua v0 m') = take 2 (success_trace m') /\
  trace (w_loaded ua v0 m') = take 3 (success_trace m') /\
  trace (w_mounted ua v0 m') = take 6 (success_trace m') /\
  trace (w_failed ua v0 m' e) = take 3 (failure_trace m') /\
  trace (w_rejected ua v0 m' e) = take 3 (failure_trace m') /\
  trace (w_reported ua v0 m' e) = failure_trace m'.
Proof. destruct m'; repeat split; reflexivity. Qed.

Lemma trace_final m' : trace (w_final ua v0 m') `prefix_of` success_trace m'.
Proof.
  unfold w_final. destruct (nav_pending (vue (w_mounted ua v0 m'))); [|rewrite (proj1 (proj2 (proj2 (traces_of m' 0)))); apply prefix_take].
  destruct m'; reflexivity.
Qed.

Lemma vue_reachable m' w :
  reachable_world ua v0 m' w -> vue w = v0 \/ w = w_mounted ua v0 m' \/ w = w_final ua v0 m'.
Proof.
  destruct (vue_before_mount ua v0 m' 0) as (H1 & H2 & _).
  intros [->|[->|[->|[->|(e & [->|[->| ->] ] )] ] ] ]; auto;
    destruct (vue_before_mount ua v0 m' e) as (_ & _ & H3 & H4 & H5); auto.
Qed.

(** The runtime after the handler: one more app, the selected root, the
    router installed, and shown in the host when the host exists. *)
Lemma mounted_runtime m' :
  app_count (vue (w_mounted ua v0 m')) = S (app_count v0) /\
  app_root (vue (w_mounted ua v0 m')) (app_count v0) = Some (root_of m') /\
  app_has_router (vue (w_mounted ua v0 m')) (app_count v0) = true /\
  (host_exists v0 app_host = true -> mounted_at (vue (w_mounted ua v0 m')) app_host = Some (app_count v0)).
Proof.
  rewrite vue_mounted. cbv zeta.
  destruct (createApp (root_of m') v0) as [v1 id] eqn:Ec. cbn [fst snd].
  destruct (createApp_spec _ _ _ _ Ec) as (-> & Hc & Hroot & _ & Hnm & _ & _ & Hh).
  destruct (use_spec (app_count v0) v1) as (Hr & Hroots & Hm & Hcu & _ & Hh'); [rewrite Hroot; eauto|].
  set (v2 := app_use (app_count v0) RouterPlugin v1) in *.
  assert (Hs2 : is_Some (app_root v2 (app_count v0))) by (rewrite Hroots, Hroot; eauto).
  assert (Hnm2 : app_is_mounted v2 (app_count v0) = false) by (rewrite Hm; exact Hnm).
  destruct (host_exists v2 app_host) eqn:Hhost.
  - destruct (mount_spec (app_count v0) app_host v2 Hs2 Hhost Hnm2) as (Hmt & _ & Hroots' & Hrs & Hcm & _).
    rewrite Hcm, Hcu, Hc, Hroots', Hroots, Hrs. auto.
  - destruct (mount_no_host (app_count v0) app_host v2 Hhost) as (_ & Hcm & Hroots' & Hrs).
    rewrite Hcm, Hcu, Hc, Hroots', Hroots, Hrs. split; [reflexivity|]. split; [exact Hroot|].
    split; [exact Hr|]. intros H0. subst v2. rewrite Hh', Hh, H0 in Hhost. discriminate.
Qed.

(** The navigation changes nothing of the apps and elements. *)
Lemma final_runtime m' :
  (forall s, mounted_at (vue (w_final ua v0 m')) s = mounted_at (vue (w_mounted ua v0 m')) s) /\
  app_count (vue (w_final ua v0 m')) = app_count (vue (w_mounted ua v0 m')) /\
  (forall j, app_root (vue (w_final ua v0 m')) j = app_root (vue (w_mounted ua v0 m')) j) /\
  (forall j, app_has_router (vue (w_final ua v0 m')) j = app_has_router (vue (w_mounted ua v0 m')) j).
Proof.
  rewrite vue_final. destruct (nav_pending (vue (w_mounted ua v0 m'))); [|auto].
  destruct (navigation_spec (vue (w_mounted ua v0 m'))) as (_ & Hm & _ & Hr & Hh & _ & Hc). auto.
Qed.

(** C2: nothing is shown in any element before the root view's module has
    loaded: a world whose runtime shows something else than the initial one
    has the import promise fulfilled with that module. *)
Theorem no_mount_before_load w s :
  star step (start ua v0) w -> mounted_at (vue w) s <> mounted_at v0 s ->
  pstate_of (ps w) 0 = Some (Fulfilled (VModule (root_of m))).
Proof.
  intros Hw%(reachable_iff ua v0 Hidle) Hs. destruct (vue_reachable _ _ Hw) as [Hv|[-> | ->]].
  - rewrite Hv in Hs. contradiction.
  - apply mounted_import_state.
  - rewrite ps_final. apply mounted_import_state.
Qed.

Lemma trace_prefix w :
  star step (start ua v0) w ->
  trace w `prefix_of` success_trace m \/ trace w `prefix_of` failure_trace m.
Proof.
  intros Hw%(reachable_iff ua v0 Hidle). destruct (traces_of m 0) as (T1 & T2 & T3 & _).
  destruct Hw as [->|[->|[->|[->|(e & Hw)] ] ] ].
  - rewrite T1. left. apply prefix_take.
  - rewrite T2. left. apply prefix_take.
  - rewrite T3. left. apply prefix_take.
  - left. apply trace_final.
  - destruct (traces_of m e) as (_ & _ & _ & T4 & T5 & T6). right.
    destruct Hw as [->|[->| ->] ]; [rewrite T4 | rewrite T5 | rewrite T6]; first [apply prefix_take | reflexivity].
Qed.

(** C6: the trace of every run is a prefix of the pipeline classify,
    import, load, createApp, use, mount, navigation completed, or of the
    failure pipeline classify, import, load failed, unhandled rejection. *)
Theorem trace_ordered w :
  star step (start ua v0) w ->
  trace w `prefix_of` success_trace m \/ trace w `prefix_of` failure_trace m.
Proof. apply trace_prefix. Qed.

(** C3: when the document has the host element and the module loads, the
    run ends, with nothing left to do, in a world where the host shows a
    new app whose root is the view [isMobile] selected and which has the
    router installed. *)
Theorem bootstrap_mounts :
  host_exists v0 app_host = true ->
  exists w, star step (start ua v0) w /\ terminal step w /\
    mounted_at (vue w) app_host = Some (app_count v0) /\
    app_root (vue w) (app_count v0) = Some (root_of m) /\
    app_has_router (vue w) (app_count v0) = true.
Proof.
  intros Hhost. exists (w_final ua v0 m).
  destruct (mounted_runtime m) as (_ & Hroot & Hr & Hmt).
  destruct (final_runtime m) as (Fm & _ & Froot & Fr).
  split; [rewrite start_eq; apply star_started_final|]. split; [apply final_terminal|].
  rewrite Fm, Froot, Fr. auto.
Qed.

Lemma not_in_failure_trace ev e :
  ev = EvUnhandled 0 \/ ev = EvMount -> ev ∈ trace (w_reported ua v0 m e) -> False.
Proof.
  intros Hev Hin. rewrite (proj2 (proj2 (proj2 (proj2 (proj2 (traces_of m e)))))) in Hin.
  destruct m; cbn in Hin;
    repeat (apply elem_of_cons in Hin as [Hin|Hin]; [destruct Hev; congruence|]); apply elem_of_nil in Hin as [].
Qed.

(** C5: when the load fails, the run ends with the runtime untouched and one
    unhandled rejection reported: that of the promise [.then] returned
    (id 1); the import promise (id 0), which [.then] handles, is never
    reported. *)
Theorem bootstrap_load_failure e :
  star step (start ua v0) (w_reported ua v0 m e) /\ terminal step (w_reported ua v0 m e) /\
  vue (w_reported ua v0 m e) = v0 /\ trace (w_reported ua v0 m e) = failure_trace m /\
  forall w, star step (start ua v0) w -> EvUnhandled 0 ∉ trace w.
Proof.
  split; [rewrite start_eq; apply star_started_reported|].
  split; [apply reported_terminal, Hidle|]. split; [apply (vue_before_mount ua v0 m e)|].
  split; [apply (traces_of m e)|].
  intros w Hw Hin. destruct (trace_prefix w Hw) as [[l Hl]|[l Hl]];
    assert (Hin' : EvUnhandled 0 ∈ trace w ++ l) by (apply elem_of_app; left; exact Hin);
    rewrite <- Hl in Hin'; destruct m; cbn in Hin';
    repeat (apply elem_of_cons in Hin' as [Hin'|Hin']; [discriminate|]); apply elem_of_nil in Hin' as [].
Qed.

(** C7: the program creates at most one app. *)
Theorem at_most_one_app w :
  star step (start ua v0) w -> app_count (vue w) <= S (app_count v0).
Proof.
  intros Hw%(reachable_iff ua v0 Hidle). destruct (vue_reachable _ _ Hw) as [-> | [-> | ->]]; [lia| |].
  - rewrite (proj1 (mounted_runtime m)). lia.
  - rewrite (proj1 (proj2 (final_runtime m))), (proj1 (mounted_runtime m)). lia.
Qed.

Lemma acc_terminal (w : @world Vst) : terminal step w -> Acc (fun a b => step b a) w.
Proof. intros Ht. constructor. intros y Hy. destruct (Ht y Hy). Qed.

Lemma acc_mounted m' : Acc (fun a b => step b a) (w_mounted ua v0 m').
Proof.
  constructor. intros y Hy. apply (step_mounted ua v0) in Hy as [-> En].
  apply acc_terminal. pose proof (final_terminal ua v0 m') as Ht. unfold w_final in Ht.
  rewrite En in Ht. exact Ht.
Qed.

Lemma acc_listed m' :
  Acc (fun a b => step b a) (w_started ua v0 m') /\ forall e, Acc (fun a b => step b a) (w_failed ua v0 m' e).
Proof.
  assert (Hf : forall e, Acc (fun a b => step b a) (w_failed ua v0 m' e)).
  { intros e. constructor. intros y ->%(step_failed ua v0 Hidle). constructor.
    intros z ->%(step_rejected ua v0 Hidle). apply acc_terminal, reported_terminal, Hidle. }
  split; [|exact Hf]. constructor. intros y Hy. apply (step_started ua v0 Hidle) in Hy as [->|[e ->]]; [|apply Hf].
  constructor. intros z ->%(step_loaded ua v0 Hidle). apply acc_mounted.
Qed.

(** C8: the bootstrap terminates: no run from the evaluation of src/main.js
    is infinite (the converse of [step] is well founded on the reachable
    worlds). *)
Theorem bootstrap_terminates w :
  star step (start ua v0) w -> Acc (fun a b => step b a) w.
Proof.
  intros Hw. rewrite start_eq in Hw. destruct (acc_listed m) as [Ha _].
  induction Hw as [|a b c Hab Hbc IH]; [exact Ha|].
  apply IH. destruct Ha as [Ha]. apply Ha, Hab.
Qed.

Lemma final_worlds w :
  star step (start ua v0) w -> terminal step w ->
  w = w_final ua v0 m \/ exists e, w = w_reported ua v0 m e.
Proof.
  intros Hw%(reachable_iff ua v0 Hidle) Ht.
  destruct Hw as [->|[->|[->|[->|(e & [->|[->| ->] ] )] ] ] ]; eauto.
  - exfalso. apply (Ht (w_loaded ua v0 m)). apply StepLoadOk; [apply list_elem_of_here | apply module_default_root].
  - exfalso. apply (Ht (w_mounted ua v0 m)), step_run_next, (queues_of ua v0 m 0).
  - left. unfold w_final. destruct (nav_pending (vue (w_mounted ua v0 m))) eqn:En; [|reflexivity].
    exfalso. apply (Ht _ (StepNavigate _ En)).
  - exfalso. apply (Ht (w_rejected ua v0 m e)), step_run_next, (queues_of ua v0 m e).
  - exfalso. apply (Ht (w_reported ua v0 m e)). apply StepNotify; [apply (queues_of ua v0 m e)|].
    rewrite (proj1 (proj2 (proj2 (proj2 (proj2 (proj2 (queues_of ua v0 m e))))))). discriminate.
Qed.

(** C9: a run that stops ends in the final world of success (mounted, and
    the navigation the handler started completed) or with the rejection
    reported: there is no other final world. *)
Theorem bootstrap_outcomes w :
  star step (start ua v0) w -> terminal step w ->
  w = w_final ua v0 m \/ exists e, w = w_reported ua v0 m e.
Proof. apply final_worlds. Qed.

(** A final world whose trace shows the mount is the final world of
    success. *)
Lemma final_mounted w :
  star step (start ua v0) w -> terminal step w -> EvMount ∈ trace w -> w = w_final ua v0 m.
Proof.
  intros Hw Ht Hmount. destruct (final_worlds w Hw Ht) as [->|[e ->]]; [reflexivity|].
  exfalso. apply (not_in_failure_trace EvMount e); [right; reflexivity | exact Hmount].
Qed.

End Properties.

(** ** The bootstrap on the Vue model *)

Section Concrete.
Import VueModel.
Context `{CM : CaseMapping}.

(** The runtime when src/main.js starts: router/index.js has been evaluated
    (static imports first), so the router exists, idle, with its matcher
    and the location [createWebHistory] read from the page; the document
    may have [#app]. *)
Definition initial_vue (BASE_URL pathname : js_string) (host : bool) : VueModel.state :=
  initial_state (router BASE_URL) (if host then [app_host] else [])
    (current_location (router_history (router BASE_URL)) pathname).

Lemma initial_vue_idle BASE_URL pathname host : nav_pending (initial_vue BASE_URL pathname host) = false.
Proof. destruct host; reflexivity. Qed.

Lemma final_route ua BASE_URL pathname host :
  let loc := current_location (router_history (router BASE_URL)) pathname in
  let vm := vue (w_mounted ua (initial_vue BASE_URL pathname host) (isMobile ua)) in
  let vf := vue (w_final ua (initial_vue BASE_URL pathname host) (isMobile ua)) in
  current (router_st vm) = None /\ pending (router_st vm) = Some loc /\
  current (router_st vf) = Some (resolve (router BASE_URL) loc) /\ pending (router_st vf) = None.
Proof. destruct (isMobile ua), host; repeat split; reflexivity. Qed.

(** C11: the app is mounted before the router's initial navigation
    completes: when the handler returns, the route is still
    [START_LOCATION] and the navigation to the page's location (the base
    stripped) is in progress; in the final world of success it has
    completed, and the current route is what the routing table resolves
    there. *)
Theorem bootstrap_initial_route ua BASE_URL pathname host :
  let loc := current_location (router_history (router BASE_URL)) pathname in
  let vm := vue (w_mounted ua (initial_vue BASE_URL pathname host) (isMobile ua)) in
  let vf := vue (w_final ua (initial_vue BASE_URL pathname host) (isMobile ua)) in
  current (router_st vm) = None /\ pending (router_st vm) = Some loc /\
  current (router_st vf) = Some (resolve (router BASE_URL) loc) /\ pending (router_st vf) = None.
Proof. apply final_route. Qed.

(** C10: deployed under any [BASE_URL] (a path, as for
    [Router.current_location]), on any device, every run that opens
    the base followed by a route's path and ends with the app mounted
    shows that route. *)
Theorem bootstrap_opens_route ua BASE_URL r host w :
  r ∈ routes ->
  star step (start ua (initial_vue BASE_URL (normalize_base BASE_URL ++ path r) host)) w ->
  terminal step w -> EvMount ∈ trace w ->
  current (router_st (vue w)) = Some (Some r).
Proof.
  intros Hr Hw Ht Hmount. rewrite (final_mounted ua _ (initial_vue_idle _ _ _) w Hw Ht Hmount).
  rewrite (proj1 (proj2 (proj2 (final_route ua BASE_URL _ host)))).
  f_equal. apply resolve_strip_base, Hr.
Qed.

End Concrete.

(** ** Witnesses *)

#[local] Existing Instance VueModel.vue_model.
#[local] Existing Instance ascii_case_mapping.

Definition v_start : VueModel.state := initial_vue js["/"] js["/about"] true.

Lemma v_start_idle : nav_pending v_start = false.
Proof. reflexivity. Qed.

Lemma reachable_exactly_witness :
  nav_pending v_start = false /\
  (star step (start ua_android v_start) (w_final ua_android v_start (@isMobile ascii_case_mapping ua_android)) <->
   reachable_world ua_android v_start (@isMobile ascii_case_mapping ua_android)
     (w_final ua_android v_start (@isMobile ascii_case_mapping ua_android))).
Proof. split; [exact v_start_idle | apply (reachable_exactly ua_android v_start v_start_idle)]. Defined.

Lemma no_mount_before_load_witness :
  nav_pending v_start = false /\
  star step (start ua_android v_start) (w_final ua_android v_start (@isMobile ascii_case_mapping ua_android)) /\
  mounted_at (vue (w_final ua_android v_start (@isMobile ascii_case_mapping ua_android))) app_host
    <> mounted_at v_start app_host /\
  pstate_of (ps (w_final ua_android v_start (@isMobile ascii_case_mapping ua_android))) 0
    = Some (Fulfilled (VModule (root_of (@isMobile ascii_case_mapping ua_android)))).
Proof.
  assert (Hs : star step (start ua_android v_start) (w_final ua_android v_start (@isMobile ascii_case_mapping ua_android)))
    by (rewrite start_eq; apply star_started_final).
  assert (Hm : mounted_at (vue (w_final ua_android v_start (@isMobile ascii_case_mapping ua_android))) app_host
               <> mounted_at v_start app_host) by (vm_compute; discriminate).
  split; [exact v_start_idle|]. split; [exact Hs|]. split; [exact Hm|].
  apply (no_mount_before_load ua_android v_start v_start_idle _ app_host Hs Hm).
Defined.

Lemma trace_ordered_witness :
  nav_pending v_start = false /\
  star step (start ua_windows v_start) (w_failed ua_windows v_start (@isMobile ascii_case_mapping ua_windows) 7) /\
  (trace (w_failed ua_windows v_start (@isMobile ascii_case_mapping ua_windows) 7)
     `prefix_of` success_trace (@isMobile ascii_case_mapping ua_windows) \/
   trace (w_failed ua_windows v_start (@isMobile ascii_case_mapping ua_windows) 7)
     `prefix_of` failure_trace (@isMobile ascii_case_mapping ua_windows)).
Proof.
  assert (Hs : star step (start ua_windows v_start) (w_failed ua_windows v_start (@isMobile ascii_case_mapping ua_windows) 7))
    by (rewrite start_eq; apply star_one, StepLoadFail, list_elem_of_here).
  split; [exact v_start_idle|]. split; [exact Hs | apply (trace_ordered ua_windows v_start v_start_idle _ Hs)].
Defined.

Lemma bootstrap_mounts_witness :
  host_exists v_start app_host = true /\
  exists w, star step (start ua_android v_start) w /\ terminal step w /\
    mounted_at (vue w) app_host = Some (app_count v_start) /\
    app_root (vue w) (app_count v_start) = Some (root_of (@isMobile ascii_case_mapping ua_android)) /\
    app_has_router (vue w) (app_count v_start) = true.
Proof.
  assert (Hh : host_exists v_start app_host = true) by (vm_compute; reflexivity).
  split; [exact Hh | apply (bootstrap_mounts ua_android v_start Hh)].
Defined.

Lemma bootstrap_load_failure_witness :
  nav_pending v_start = false /\
  trace (w_reported ua_windows v_start (isMobile ua_windows) 3) = failure_trace (isMobile ua_windows).
Proof.
  split; [exact v_start_idle | apply (bootstrap_load_failure ua_windows v_start v_start_idle 3)].
Defined.

Lemma at_most_one_app_witness :
  nav_pending v_start = false /\
  star step (start ua_windows v_start) (w_final ua_windows v_start (@isMobile ascii_case_mapping ua_windows)) /\
  app_count (vue (w_final ua_windows v_start (@isMobile ascii_case_mapping ua_windows))) <= S (app_count v_start).
Proof.
  assert (Hs : star step (start ua_windows v_start) (w_final ua_windows v_start (@isMobile ascii_case_mapping ua_windows)))
    by (rewrite start_eq; apply star_started_final).
  split; [exact v_start_idle|]. split; [exact Hs | apply (at_most_one_app ua_windows v_start v_start_idle _ Hs)].
Defined.

Lemma bootstrap_terminates_witness :
  nav_pending v_start = false /\
  star step (start ua_android v_start) (start ua_android v_start) /\
  Acc (fun a b => step b a) (start ua_android v_start).
Proof.
  split; [exact v_start_idle|].
  split; [apply star_refl | apply (bootstrap_terminates ua_android v_start v_start_idle), star_refl].
Defined.

Lemma bootstrap_outcomes_witness :
  nav_pending v_start = false /\
  star step (start ua_android v_start) (w_final ua_android v_start (@isMobile ascii_case_mapping ua_android)) /\
  terminal step (w_final ua_android v_start (@isMobile ascii_case_mapping ua_android)) /\
  (w_final ua_android v_start (@isMobile ascii_case_mapping ua_android)
     = w_final ua_android v_start (@isMobile ascii_case_mapping ua_android) \/
   exists e, w_final ua_android v_start (@isMobile ascii_case_mapping ua_android)
     = w_reported ua_android v_start (@isMobile ascii_case_mapping ua_android) e).
Proof.
  assert (Hs : star step (start ua_android v_start) (w_final ua_android v_start (@isMobile ascii_case_mapping ua_android)))
    by (rewrite start_eq; apply star_started_final).
  assert (Ht : terminal step (w_final ua_android v_start (@isMobile ascii_case_mapping ua_android)))
    by apply final_terminal.
  split; [exact v_start_idle|]. split; [exact Hs|].
  split; [exact Ht | apply (bootstrap_outcomes ua_android v_start v_start_idle _ Hs Ht)].
Defined.

Lemma bootstrap_opens_route_witness :
  let r := mk_route js["/books"] js["Books"] Books in
  let v0 := initial_vue js["mypoems"] (normalize_base js["mypoems"] ++ path r) true in
  r ∈ routes /\
  star step (start ua_android v0) (w_final ua_android v0 (@isMobile ascii_case_mapping ua_android)) /\
  terminal step (w_final ua_android v0 (@isMobile ascii_case_mapping ua_android)) /\
  EvMount ∈ trace (w_final ua_android v0 (@isMobile ascii_case_mapping ua_android)) /\
  VueModel.current (VueModel.router_st (vue (w_final ua_android v0 (@isMobile ascii_case_mapping ua_android))))
    = Some (Some r).
Proof.
  intros r v0. assert (Hr : r ∈ routes) by (apply list_elem_of_further, list_elem_of_further, list_elem_of_here).
  assert (Hs : star step (start ua_android v0) (w_final ua_android v0 (@isMobile ascii_case_mapping ua_android)))
    by (rewrite start_eq; apply star_started_final).
  assert (Ht : terminal step (w_final ua_android v0 (@isMobile ascii_case_mapping ua_android)))
    by apply final_terminal.
  assert (Hm : EvMount ∈ trace (w_final ua_android v0 (@isMobile ascii_case_mapping ua_android)))
    by (vm_compute; repeat constructor).
  split; [exact Hr|]. split; [exact Hs|]. split; [exact Ht|]. split; [exact Hm|].
  apply (bootstrap_opens_route ua_android js["mypoems"] r true _ Hr Hs Ht Hm).
Defined.

End Bootstrap.
