(* ===== verification/Modules.v ===== *)
(** * Module specifiers and how they resolve

    Every file of the program starts with [import] declarations, and
    src/main.js also calls [import()].  [main_js_imports] (src/main.js lines
    1-2), [router_imports] (src/desktop/router/index.js lines 2 and 5-7) and
    [desktop_main_imports] (src/desktop/components/js/main.js lines 1-3)
    list their specifiers.  The dynamic imports of src/main.js are
    [Bootstrap.mobile_app_specifier] and [Bootstrap.desktop_app_specifier].

    The bundler resolves a specifier as Vite does.  A specifier that starts
    with "./" or "../" is relative to the importing file's directory.  "@/"
    is the project's alias for "src/" (the create-vue configuration; the
    alias is build configuration, outside the sources).  "/" is the project
    root.  Anything else is a package.  Paths are root-relative JavaScript
    strings.  [normalize_path] drops empty and "." segments and lets ".."
    cancel the segment before it.  On the paths resolution builds here
    (relative, non-empty, no trailing '/', not normalizing to nothing) it
    is [path.posix.normalize]; it is not that function elsewhere: it maps
    "" to "" (posix gives "."), and it drops a leading or trailing '/'
    (posix keeps them).  The theorems only use it on paths made of plain
    segments, where both leave the path as it is.

    The theorems: a relative import of the eager entry point resolves from
    src/desktop/components/js/, so it never names the module src/main.js
    imports under the same name through "@/". *)

From S2P Require Import Prelude Router Bootstrap.
Import Router Bootstrap.

Module Modules.

(** ** Paths as segments *)

(** [p.split('/')]. *)
Fixpoint split_from (cur : js_string) (p : js_string) : list js_string :=
  match p with
  | [] => [cur]
  | c :: p' => if decide (c = slash) then cur :: split_from [] p' else split_from (cur ++ [c]) p'
  end.

Definition split_path (p : js_string) : list js_string := split_from [] p.

(** [segs.join('/')]. *)
Fixpoint join_path (segs : list js_string) : js_string :=
  match segs with
  | [] => []
  | [s] => s
  | s :: segs' => s ++ slash :: join_path segs'
  end.

Definition dot : js_string := js["."].
Definition dotdot : js_string := js[".."].

(** The segment stack of [normalize], most recent segment first. *)
Fixpoint normalize_segs (acc : list js_string) (segs : list js_string) : list js_string :=
  match segs with
  | [] => rev acc
  | s :: segs' =>
      if decide (s = [] \/ s = dot) then normalize_segs acc segs'
      else if decide (s = dotdot) then
        match acc with
        | t :: acc' => if decide (t = dotdot) then normalize_segs (s :: acc) segs'
                       else normalize_segs acc' segs'
        | [] => normalize_segs [s] segs'
        end
      else normalize_segs (s :: acc) segs'
  end.

Definition normalize_path (p : js_string) : js_string :=
  join_path (normalize_segs [] (split_path p)).

(** [path.dirname]. *)
Definition dirname (p : js_string) : js_string := join_path (removelast (split_path p)).

(** ** Resolution *)

Inductive resolved := Package (name : js_string) | LocalFile (path : js_string).

#[export] Instance resolved_eq_dec : EqDecision resolved.
Proof. solve_decision. Defined.

Definition starts_with (pre s : js_string) : bool := bool_decide (take (length pre) s = pre).

Definition alias_src : js_string := js["src"].

Definition resolve_specifier (importer spec : js_string) : resolved :=
  if starts_with js["@/"] spec then LocalFile (normalize_path (alias_src ++ drop 1 spec))
  else if starts_with js["./"] spec || starts_with js["../"] spec
  then LocalFile (normalize_path (dirname importer ++ slash :: spec))
  else if starts_with js["/"] spec then LocalFile (normalize_path (drop 1 spec))
  else Package spec.

(** ** The import declarations of the repository *)

Definition main_js_path : js_string := js["src/main.js"].
Definition router_path : js_string := js["src/desktop/router/index.js"].
Definition desktop_main_path : js_string := js["src/desktop/components/js/main.js"].

(** The JavaScript files of the repository. *)
Definition repository_js_files : list js_string := [main_js_path; router_path; desktop_main_path].

Definition main_js_imports : list js_string := [js["vue"]; js["@/desktop/router/index.js"]].

Definition router_imports : list js_string :=
  [js["vue-router"]; js["@/desktop/components/home.vue"]; js["@/desktop/components/about.vue"];
   js["@/desktop/components/books.vue"]].

Definition desktop_main_imports : list js_string :=
  [js["vue"]; js["./desktop/app.vue"]; js["./desktop/router/index.js"]].

(** ** Split and join *)

Lemma split_from_nonempty cur p : split_from cur p <> [].
Proof. revert cur. induction p as [|c p IH]; intros cur; simpl; [discriminate|]. case_decide; [discriminate | apply IH]. Qed.

Lemma join_cons s l : l <> [] -> join_path (s :: l) = s ++ slash :: join_path l.
Proof. destruct l; [congruence | reflexivity]. Qed.

Lemma join_split_from cur p : join_path (split_from cur p) = cur ++ p.
Proof.
  revert cur. induction p as [|c p IH]; intros cur; simpl; [by rewrite app_nil_r|].
  case_decide as Hc.
  - subst. rewrite join_cons by apply split_from_nonempty. rewrite IH. reflexivity.
  - rewrite IH, <- app_assoc. reflexivity.
Qed.

Lemma join_split_path p : join_path (split_path p) = p.
Proof. apply join_split_from. Qed.

Lemma split_from_slash cur p : split_from cur (slash :: p) = cur :: split_from [] p.
Proof. reflexivity. Qed.

Lemma split_from_app_slash cur a b :
  split_from cur (a ++ slash :: b) = split_from cur a ++ split_from [] b.
Proof.
  revert cur. induction a as [|c a IH]; intros cur; [apply split_from_slash|].
  simpl. case_decide; [simpl; f_equal; apply IH | apply IH].
Qed.

Lemma split_app a b : split_path (a ++ slash :: b) = split_path a ++ split_path b.
Proof. apply split_from_app_slash. Qed.

Lemma join_app l1 l2 : l1 <> [] -> l2 <> [] -> join_path (l1 ++ l2) = join_path l1 ++ slash :: join_path l2.
Proof.
  intros H1 H2. induction l1 as [|s l1 IH]; [congruence|].
  destruct l1 as [|s' l1].
  - apply join_cons, H2.
  - rewrite <- app_comm_cons, (join_cons s), (join_cons s) by (rewrite ?app_comm_cons; discriminate).
    rewrite IH by discriminate. rewrite <- app_assoc. reflexivity.
Qed.

(** ** Plain segments *)

(** A segment [normalize] keeps as it is. *)
Definition plain (s : js_string) : Prop := s <> [] /\ s <> dot /\ s <> dotdot /\ slash ∉ s.

(** The equations of [normalize_segs], one per branch. *)
Lemma normalize_segs_skip acc s l : s = [] \/ s = dot -> normalize_segs acc (s :: l) = normalize_segs acc l.
Proof. intros H. simpl. rewrite decide_True by exact H. reflexivity. Qed.

Lemma normalize_segs_push acc s l :
  s <> [] -> s <> dot -> s <> dotdot -> normalize_segs acc (s :: l) = normalize_segs (s :: acc) l.
Proof. intros H1 H2 H3. simpl. rewrite decide_False by tauto. rewrite decide_False by exact H3. reflexivity. Qed.

Lemma normalize_segs_plain acc rest : Forall plain rest -> normalize_segs acc rest = rev acc ++ rest.
Proof.
  revert acc. induction rest as [|s rest IH]; intros acc Hr; [simpl; by rewrite app_nil_r|].
  apply Forall_cons in Hr as [(H1 & H2 & H3 & _) Hr].
  rewrite normalize_segs_push, IH by assumption. simpl. rewrite <- app_assoc. reflexivity.
Qed.

(** ** Resolution of plain paths *)

#[export] Instance plain_dec s : Decision (plain s).
Proof. unfold plain. apply _. Defined.

Lemma normalize_segs_plain_app acc l1 l2 :
  Forall plain l1 -> normalize_segs acc (l1 ++ l2) = normalize_segs (rev l1 ++ acc) l2.
Proof.
  revert acc. induction l1 as [|s l1 IH]; intros acc H; [reflexivity|].
  apply Forall_cons in H as [(H1 & H2 & H3 & _) H].
  rewrite <- app_comm_cons, normalize_segs_push, IH by assumption.
  simpl. rewrite <- app_assoc. reflexivity.
Qed.

(** A path whose segments are all plain is its own normal form. *)
Lemma normalize_path_plain p : Forall plain (split_path p) -> normalize_path p = p.
Proof.
  intros H. unfold normalize_path. rewrite normalize_segs_plain by exact H.
  apply join_split_path.
Qed.

Lemma split_path_nonempty p : split_path p <> [].
Proof. apply split_from_nonempty. Qed.

Lemma join_plain_app a b :
  join_path (split_path a ++ split_path b) = a ++ slash :: b.
Proof. rewrite join_app, !join_split_path by apply split_path_nonempty. reflexivity. Qed.

Lemma split_alias_src : split_path alias_src = [alias_src].
Proof. reflexivity. Qed.

Lemma relative_spec_shape x : js["./"] ++ x = dot ++ slash :: x.
Proof. reflexivity. Qed.

Lemma alias_spec_drop x : drop 1 (js["@/"] ++ x) = slash :: x.
Proof. reflexivity. Qed.

Lemma starts_with_relative x :
  starts_with js["@/"] (js["./"] ++ x) = false /\ starts_with js["./"] (js["./"] ++ x) = true.
Proof. split; reflexivity. Qed.

Lemma starts_with_alias x : starts_with js["@/"] (js["@/"] ++ x) = true.
Proof. reflexivity. Qed.

(** An import "./x" of a file in directory d, with x and d made of plain
    segments, names the file d/x. *)
Lemma resolve_relative importer x :
  Forall plain (split_path (dirname importer)) -> Forall plain (split_path x) ->
  resolve_specifier importer (js["./"] ++ x) = LocalFile (dirname importer ++ slash :: x).
Proof.
  intros Hd Hx. unfold resolve_specifier.
  destruct (starts_with_relative x) as [-> ->]. simpl orb. f_equal.
  rewrite relative_spec_shape. unfold normalize_path.
  rewrite !split_app, normalize_segs_plain_app by exact Hd.
  change (split_path dot ++ split_path x) with (dot :: split_path x).
  rewrite normalize_segs_skip by (right; reflexivity).
  rewrite normalize_segs_plain, app_nil_r, rev_involutive by exact Hx. apply join_plain_app.
Qed.

(** An import "@/x", with x made of plain segments, names the file src/x,
    whichever file imports it. *)
Lemma resolve_alias importer x :
  Forall plain (split_path x) ->
  resolve_specifier importer (js["@/"] ++ x) = LocalFile (alias_src ++ slash :: x).
Proof.
  intros Hx. unfold resolve_specifier. rewrite starts_with_alias, alias_spec_drop. f_equal.
  apply normalize_path_plain. rewrite split_app, split_alias_src.
  constructor; [apply (bool_decide_unpack _); reflexivity | exact Hx].
Qed.

Definition desktop_js_dir : js_string := js["src/desktop/components/js"].

Lemma dirname_desktop_main : dirname desktop_main_path = desktop_js_dir.
Proof. reflexivity. Qed.

Lemma desktop_js_dir_plain : Forall plain (split_path desktop_js_dir).
Proof. apply (bool_decide_unpack _). vm_compute. reflexivity. Qed.

Lemma desktop_js_dir_under_src x :
  desktop_js_dir ++ slash :: x = alias_src ++ slash :: (js["desktop/components/js/"] ++ x).
Proof. reflexivity. Qed.

Lemma eager_relative_alias_iff x y :
  Forall plain (split_path x) -> Forall plain (split_path y) ->
  resolve_specifier desktop_main_path (js["./"] ++ x) = resolve_specifier main_js_path (js["@/"] ++ y) <->
  y = js["desktop/components/js/"] ++ x.
Proof.
  intros Hx Hy. rewrite resolve_relative, resolve_alias, dirname_desktop_main;
    [| exact Hy | rewrite dirname_desktop_main; exact desktop_js_dir_plain | exact Hx].
  split.
  - intros E. rewrite desktop_js_dir_under_src in E.
    apply (f_equal (fun r => match r with LocalFile p => p | Package _ => [] end)) in E.
    cbv beta iota in E. apply app_inv_head, (f_equal tail) in E. symmetry. exact E.
  - intros ->. rewrite desktop_js_dir_under_src. reflexivity.
Qed.

(** C13: a relative import "./x" of the eager desktop entry point
    (src/desktop/components/js/main.js) denotes the same file as the import
    "@/y" of src/main.js exactly when y is "desktop/components/js/x": its
    relative specifiers are resolved from its own directory, not from src/. *)
Theorem eager_relative_vs_alias x y :
  Forall plain (split_path x) -> Forall plain (split_path y) ->
  resolve_specifier desktop_main_path (js["./"] ++ x) = resolve_specifier main_js_path (js["@/"] ++ y) <->
  y = js["desktop/components/js/"] ++ x.
Proof. exact (eager_relative_alias_iff x y). Qed.

(** C12: the eager entry point's relative import "./x" never names the
    module that src/main.js imports as "@/x": its imports
    "./desktop/app.vue" and "./desktop/router/index.js" miss the desktop
    root view and the router that src/main.js loads. *)
Theorem eager_relative_import_misses x :
  Forall plain (split_path x) ->
  resolve_specifier desktop_main_path (js["./"] ++ x) <> resolve_specifier main_js_path (js["@/"] ++ x).
Proof.
  intros Hx E. apply eager_relative_alias_iff in E; [|exact Hx | exact Hx].
  apply (f_equal length) in E. rewrite length_app in E. simpl in E. lia.
Qed.

(** ** The repository's imports, and witnesses *)

(** The eager entry's two local imports name files under its own directory,
    neither of which is a module of the repository; the router import of
    src/main.js names src/desktop/router/index.js. *)
Example eager_entry_imports :
  map (resolve_specifier desktop_main_path) desktop_main_imports =
    [Package js["vue"]; LocalFile js["src/desktop/components/js/desktop/app.vue"];
     LocalFile js["src/desktop/components/js/desktop/router/index.js"]] /\
  (js["src/desktop/components/js/desktop/router/index.js"] ∉ repository_js_files) /\
  map (resolve_specifier main_js_path) main_js_imports = [Package js["vue"]; LocalFile router_path] /\
  (router_path ∈ repository_js_files).
Proof.
  split; [vm_compute; reflexivity|]. split; [apply (bool_decide_unpack _); vm_compute; reflexivity|].
  split; [vm_compute; reflexivity|]. apply (bool_decide_unpack _). vm_compute. reflexivity.
Qed.

Lemma eager_relative_vs_alias_witness :
  resolve_specifier desktop_main_path (js["./"] ++ js["desktop/app.vue"]) =
  resolve_specifier main_js_path (js["@/"] ++ js["desktop/components/js/desktop/app.vue"]).
Proof.
  apply eager_relative_vs_alias;
    [apply (bool_decide_unpack _); vm_compute; reflexivity
    |apply (bool_decide_unpack _); vm_compute; reflexivity | reflexivity].
Defined.

Lemma eager_relative_import_misses_witness :
  resolve_specifier desktop_main_path (js["./"] ++ js["desktop/router/index.js"]) <>
  resolve_specifier main_js_path (js["@/"] ++ js["desktop/router/index.js"]).
Proof.
  apply eager_relative_import_misses. apply (bool_decide_unpack _). vm_compute. reflexivity.
Defined.

End Modules.
